(** * The recurring-job scheduler of [worker/routine-job.ts]

    A shallow embedding of the class [RoutineJob]: its constructor (the
    five-field cron expression), [matchesField], [matchesSchedule] and
    [shouldRun], together with the parts of the JavaScript runtime the class
    calls ([String.prototype.split], [includes], [Number], [parseInt],
    [Number.prototype.toString] and the local-time accessors of [Date]).

    Conventions.
    - A JavaScript string is a [string]: a sequence of code units below 256.
    - The [value] handed to [matchesField] is an integer produced by a [Date]
      accessor; it is a [Z].  Numbers obtained from the pattern text
      ([Number], [parseInt]) are IEEE doubles and are kept as the exact
      rational they denote, together with NaN and the two infinities.
    - A [Date] is its time value, the milliseconds since the epoch.
    - The ambient clock read by [shouldRun] ([new Date()]) is an argument, and
      the object state is passed explicitly: [shouldRun job now] returns the
      boolean together with the job after the call. *)

From Stdlib Require Import ZArith QArith Bool List Ascii String Lia.
From Stdlib Require Import DecimalString DecimalZ DecimalPos DecimalFacts Sorted.
Import ListNotations.

Open Scope string_scope.
Open Scope Z_scope.

(** ** Strings and arrays of the runtime *)

Module JS.

(** [s.includes(c)] for a one-character search string [c]. *)
Fixpoint includes (s : string) (c : ascii) : bool :=
  match s with
  | EmptyString => false
  | String a s' => if Ascii.eqb a c then true else includes s' c
  end.

(** [s.split(c)] for a one-character separator [c]: the pieces between
    consecutive occurrences, empty pieces included; the empty string yields
    one empty piece. *)
Fixpoint split (s : string) (c : ascii) : list string :=
  match s with
  | EmptyString => [EmptyString]
  | String a s' =>
      if Ascii.eqb a c then EmptyString :: split s' c
      else match split s' c with
           | piece :: pieces => String a piece :: pieces
           | [] => [String a EmptyString]
           end
  end.

(** [arr.includes(x)] on an array of strings. *)
Definition array_includes (arr : list string) (x : string) : bool :=
  existsb (String.eqb x) arr.

(** [value.toString()] of an integer: the canonical decimal numeral, with a
    leading minus sign for negative values.  This is what the runtime prints
    for every integer below 2^53 in magnitude; the values of the [Date]
    accessors lie between 0 and 59. *)
Definition toString (value : Z) : string :=
  NilZero.string_of_int (Z.to_int value).

(** *** Numbers *)

Inductive number : Type :=
| NaN
| PosInfinity
| NegInfinity
| Fin (q : Q).

Definition of_int (z : Z) : number := Fin (inject_Z z).

(** [a <= b] on numbers: false as soon as one side is NaN. *)
Definition le (a b : number) : bool :=
  match a, b with
  | NaN, _ | _, NaN => false
  | NegInfinity, _ => true
  | _, PosInfinity => true
  | PosInfinity, _ => false
  | _, NegInfinity => false
  | Fin x, Fin y => Qle_bool x y
  end.

(** [a === b] on numbers. *)
Definition strict_eq (a b : number) : bool :=
  match a, b with
  | PosInfinity, PosInfinity => true
  | NegInfinity, NegInfinity => true
  | Fin x, Fin y => Qeq_bool x y
  | _, _ => false
  end.

(** [a < b] on numbers: false as soon as one side is NaN. *)
Definition lt (a b : number) : bool :=
  match a, b with
  | NaN, _ | _, NaN => false
  | _, NegInfinity => false
  | NegInfinity, _ => true
  | PosInfinity, _ => false
  | _, PosInfinity => true
  | Fin x, Fin y => negb (Qle_bool y x)
  end.

(** The double nearest to a rational (ties to even); beyond the largest
    double the result is an infinity, below the smallest subnormal it is 0. *)
Definition round_double (q : Q) : number :=
  let n := Qnum q in
  let d := Zpos (Qden q) in
  if n =? 0 then Fin 0 else
  let a := Z.abs n in
  let e0 := Z.log2 a - Z.log2 d in
  let above := if 0 <=? e0 then d * 2 ^ e0 <=? a else d <=? a * 2 ^ (- e0) in
  let e := if above then e0 else e0 - 1 in
  let p := Z.max (e - 52) (-1074) in
  let num := if 0 <=? p then a else a * 2 ^ (- p) in
  let den := if 0 <=? p then d * 2 ^ p else d in
  let m := num / den in
  let r := num mod den in
  let m' := if den <? 2 * r then m + 1
            else if (den =? 2 * r) && Z.odd m then m + 1
            else m in
  if (0 <=? p) && (2 ^ 1024 <=? m' * 2 ^ p)
  then (if n <? 0 then NegInfinity else PosInfinity)
  else Fin (Qred (if 0 <=? p then inject_Z (Z.sgn n * m' * 2 ^ p)
                  else Qmake (Z.sgn n * m') (Z.to_pos (2 ^ (- p))))).

(** White space and line terminators, among the code units below 256. *)
Definition isWhiteSpace (c : ascii) : bool :=
  let n := Z.of_N (N_of_ascii c) in
  ((9 <=? n) && (n <=? 13)) || (n =? 32) || (n =? 160).

Fixpoint trimStart (s : string) : string :=
  match s with
  | EmptyString => EmptyString
  | String a s' => if isWhiteSpace a then trimStart s' else s
  end.

Fixpoint trimEnd (s : string) : string :=
  match s with
  | EmptyString => EmptyString
  | String a s' =>
      match trimEnd s' with
      | EmptyString => if isWhiteSpace a then EmptyString else String a EmptyString
      | t => String a t
      end
  end.

(** The value of a digit or letter as a digit of some radix. *)
Definition digitValue (c : ascii) : option Z :=
  let n := Z.of_N (N_of_ascii c) in
  if (48 <=? n) && (n <=? 57) then Some (n - 48)
  else if (97 <=? n) && (n <=? 122) then Some (n - 87)
  else if (65 <=? n) && (n <=? 90) then Some (n - 55)
  else None.

(** Reads the longest prefix of radix-[R] digits: the integer it denotes on
    top of [acc], the number of digits read, and the rest of the string. *)
Fixpoint scanDigits (R : Z) (s : string) (acc : Z) (count : nat)
  : Z * nat * string :=
  match s with
  | EmptyString => (acc, count, s)
  | String a s' =>
      match digitValue a with
      | Some d => if d <? R then scanDigits R s' (acc * R + d) (S count)
                  else (acc, count, s)
      | None => (acc, count, s)
      end
  end.

(** A leading sign, as a factor, and the string behind it. *)
Definition scanSign (s : string) : Z * string :=
  match s with
  | String "-" r => (-1, r)
  | String "+" r => (1, r)
  | _ => (1, s)
  end.

(** [parseInt(s)] with no radix argument. *)
Definition parseInt (s : string) : number :=
  let '(sign, s1) := scanSign (trimStart s) in
  let '(R, s2) :=
    match s1 with
    | String "0" (String "x" r) | String "0" (String "X" r) => (16, r)
    | _ => (10, s1)
    end in
  let '(mathInt, count, _) := scanDigits R s2 0 0%nat in
  match count with
  | O => NaN
  | _ => round_double (inject_Z (sign * mathInt))
  end.

(** The radix of a non-decimal integer literal's prefix letter. *)
Definition prefixRadix (c : ascii) : option Z :=
  match c with
  | "x" | "X" => Some 16
  | "o" | "O" => Some 8
  | "b" | "B" => Some 2
  | _ => None
  end%char.

(** An exponent part: nothing, or [e]/[E], an optional sign and digits up to
    the end of the string. *)
Definition scanExponent (s : string) : option Z :=
  match s with
  | EmptyString => Some 0
  | String c r =>
      if Ascii.eqb c "e" || Ascii.eqb c "E" then
        let '(sign, r1) := scanSign r in
        let '(ev, count, rest) := scanDigits 10 r1 0 0%nat in
        match count, rest with
        | S _, EmptyString => Some (sign * ev)
        | _, _ => None
        end
      else None
  end.

(** A signed decimal literal: [Infinity], or digits with an optional fraction
    and exponent. *)
Definition decimalLiteral (s : string) : number :=
  let '(sign, s1) := scanSign s in
  if String.eqb s1 "Infinity"
  then (if sign <? 0 then NegInfinity else PosInfinity)
  else
    let '(ip, ci, r1) := scanDigits 10 s1 0 0%nat in
    let '(mant, cf, r2) :=
      match r1 with
      | String "." r => scanDigits 10 r ip 0%nat
      | _ => (ip, 0%nat, r1)
      end in
    match (ci + cf)%nat, scanExponent r2 with
    | S _, Some ex =>
        let k := ex - Z.of_nat cf in
        round_double
          (if 0 <=? k then inject_Z (sign * mant * 10 ^ k)
           else Qmake (sign * mant) (Z.to_pos (10 ^ (- k))))
    | _, _ => NaN
    end.

(** [Number(s)]: the conversion of a string to a number. *)
Definition Number (s : string) : number :=
  match trimEnd (trimStart s) with
  | EmptyString => Fin 0
  | String "0" (String c r) as t =>
      match prefixRadix c with
      | Some R =>
          match scanDigits R r 0 0%nat with
          | (v, S _, EmptyString) => round_double (inject_Z v)
          | _ => NaN
          end
      | None => decimalLiteral t
      end
  | t => decimalLiteral t
  end.

(** The element of an array at an index, as a number: reading past the end
    gives [undefined], which converts to NaN. *)
Definition at_number (arr : list number) (i : nat) : number :=
  nth i arr NaN.

End JS.

(** ** The local-time accessors of [Date] *)

Module Calendar.

Definition msPerMinute : Z := 60000.
Definition msPerHour : Z := 3600000.
Definition msPerDay : Z := 86400000.

Definition Day (t : Z) : Z := t / msPerDay.

Definition DaysInYear (y : Z) : Z :=
  if negb (y mod 4 =? 0) then 365
  else if negb (y mod 100 =? 0) then 366
  else if negb (y mod 400 =? 0) then 365
  else 366.

(** The day number of the first day of year [y]. *)
Definition DayFromYear (y : Z) : Z :=
  365 * (y - 1970) + (y - 1969) / 4 - (y - 1901) / 100 + (y - 1601) / 400.

(** The year a day number falls in: the largest [y] with
    [DayFromYear y <= d].  The estimate from the mean length of a year is
    off by at most one. *)
Definition YearFromDay (d : Z) : Z :=
  let y := 1970 + (d * 400) / 146097 in
  if d <? DayFromYear y then y - 1
  else if DayFromYear (y + 1) <=? d then y + 1
  else y.

Definition YearFromTime (t : Z) : Z := YearFromDay (Day t).

Definition InLeapYear (t : Z) : Z :=
  if DaysInYear (YearFromTime t) =? 366 then 1 else 0.

Definition DayWithinYear (t : Z) : Z :=
  Day t - DayFromYear (YearFromTime t).

(** The month of a time value, January being 0. *)
Definition MonthFromTime (t : Z) : Z :=
  let d := DayWithinYear t in
  let leap := InLeapYear t in
  if d <? 31 then 0
  else if d <? 59 + leap then 1
  else if d <? 90 + leap then 2
  else if d <? 120 + leap then 3
  else if d <? 151 + leap then 4
  else if d <? 181 + leap then 5
  else if d <? 212 + leap then 6
  else if d <? 243 + leap then 7
  else if d <? 273 + leap then 8
  else if d <? 304 + leap then 9
  else if d <? 334 + leap then 10
  else 11.

(** The day of the month of a time value, from 1. *)
Definition DateFromTime (t : Z) : Z :=
  let d := DayWithinYear t in
  let leap := InLeapYear t in
  match MonthFromTime t with
  | 0 => d + 1
  | 1 => d - 30
  | 2 => d - 58 - leap
  | 3 => d - 89 - leap
  | 4 => d - 119 - leap
  | 5 => d - 150 - leap
  | 6 => d - 180 - leap
  | 7 => d - 211 - leap
  | 8 => d - 242 - leap
  | 9 => d - 272 - leap
  | 10 => d - 303 - leap
  | _ => d - 333 - leap
  end.

(** The day of the week, Sunday being 0: day 0 was a Thursday. *)
Definition WeekDay (t : Z) : Z := (Day t + 4) mod 7.

Definition HourFromTime (t : Z) : Z := (t / msPerHour) mod 24.
Definition MinFromTime (t : Z) : Z := (t / msPerMinute) mod 60.

End Calendar.

(** A [Date] object is its time value. *)
Definition Date : Type := Z.

Definition getTime (dt : Date) : Z := dt.

(** ** The class [RoutineJob] *)

(** The exception of the constructor, with its message. *)
Inductive Error : Type :=
| mkError (message : string).

(** The fields of the object; the logger plays no part in the schedule and
    is left out. *)
Record RoutineJob : Type := mkRoutineJob {
  name : string;
  lastRun : option Date;
  minute : string;
  hour : string;
  day : string;
  month : string;
  weekday : string
}.

Definition set_lastRun (job : RoutineJob) (dt : Date) : RoutineJob :=
  {| name := name job;
     lastRun := Some dt;
     minute := minute job;
     hour := hour job;
     day := day job;
     month := month job;
     weekday := weekday job |}.

(** [cronParts[i]]; the index is below the length wherever it is used. *)
Definition part (cronParts : list string) (i : nat) : string :=
  nth i cronParts EmptyString.

(** [new RoutineJob(name, cronExpression, logger)]: the object, or the
    exception thrown. *)
Definition new_RoutineJob (name cronExpression : string)
  : Error + RoutineJob :=
  let cronParts := JS.split cronExpression " " in
  if negb (List.length cronParts =? 5)%nat
  then inl (mkError "Invalid cron expression")
  else inr {| name := name;
              lastRun := None;
              minute := part cronParts 0;
              hour := part cronParts 1;
              day := part cronParts 2;
              month := part cronParts 3;
              weekday := part cronParts 4 |}.

Definition matchesField (value : Z) (pattern : string) : bool :=
  if String.eqb pattern "*" then true
  else if JS.includes pattern "," then
    JS.array_includes (JS.split pattern ",") (JS.toString value)
  else if JS.includes pattern "-" then
    let bounds := map JS.Number (JS.split pattern "-") in
    let start := JS.at_number bounds 0 in
    let end_ := JS.at_number bounds 1 in
    JS.le start (JS.of_int value) && JS.le (JS.of_int value) end_
  else JS.strict_eq (JS.parseInt pattern) (JS.of_int value).

Definition getName (job : RoutineJob) : string := name job.

(** The two numbers the range branch of [matchesField] destructures from
    [pattern.split("-").map(Number)]. *)
Definition range_start (pattern : string) : JS.number :=
  JS.at_number (map JS.Number (JS.split pattern "-")) 0.

Definition range_end (pattern : string) : JS.number :=
  JS.at_number (map JS.Number (JS.split pattern "-")) 1.

(** ** Notions of the specification *)

(** The tokens of an expression when any run of white space separates, as
    the specification words the field count; the constructor itself uses
    [JS.split] at the space character. *)
Fixpoint whitespace_tokens_from (s : string) (current : string)
  : list string :=
  let flush := match current with
               | EmptyString => []
               | _ => [current]
               end in
  match s with
  | EmptyString => flush
  | String a s' =>
      if JS.isWhiteSpace a then flush ++ whitespace_tokens_from s' EmptyString
      else whitespace_tokens_from s' (current ++ String a EmptyString)
  end.

Definition whitespace_tokens (s : string) : list string :=
  whitespace_tokens_from s EmptyString.

Definition isDecimalDigit (c : ascii) : bool :=
  let n := Z.of_N (N_of_ascii c) in
  (48 <=? n) && (n <=? 57).

Fixpoint allDecimalDigits (s : string) : bool :=
  match s with
  | EmptyString => true
  | String a s' => isDecimalDigit a && allDecimalDigits s'
  end.

(** A decimal representation of an integer, read generously: an optional
    sign followed by one or more decimal digits and nothing else. *)
Definition isDecimalInteger (s : string) : bool :=
  match snd (JS.scanSign s) with
  | EmptyString => false
  | digits => allDecimalDigits digits
  end.

Section Host.

(** The offset of local time from UTC, in milliseconds, at a time value: the
    time zone of the host. *)
Variable LocalTZA : Z -> Z.

Definition LocalTime (t : Z) : Z := t + LocalTZA t.

Definition getMinutes (dt : Date) : Z := Calendar.MinFromTime (LocalTime dt).
Definition getHours (dt : Date) : Z := Calendar.HourFromTime (LocalTime dt).
Definition getDate (dt : Date) : Z := Calendar.DateFromTime (LocalTime dt).
Definition getMonth (dt : Date) : Z := Calendar.MonthFromTime (LocalTime dt).
Definition getDay (dt : Date) : Z := Calendar.WeekDay (LocalTime dt).

Definition matchesSchedule (job : RoutineJob) (dt : Date) : bool :=
  if negb (matchesField (getMinutes dt) (minute job)) then false
  else if negb (matchesField (getHours dt) (hour job)) then false
  else if negb (matchesField (getDate dt) (day job)) then false
  else if negb (matchesField (getMonth dt + 1) (month job)) then false
  else if negb (matchesField (getDay dt) (weekday job)) then false
  else true.

(** [shouldRun()], with the clock reading [now] of its first line as an
    argument: the result and the object after the call. *)
Definition shouldRun (job : RoutineJob) (now : Date) : bool * RoutineJob :=
  if match lastRun job with
     | None => true
     | Some last => 60000 <? getTime now - getTime last
     end
  then
    if matchesSchedule job now then (true, set_lastRun job now)
    else (false, job)
  else (false, job).

(** The evaluator is armed at [now]: it never fired, or the last fire is
    more than the 60 seconds of the window back. *)
Definition armed (job : RoutineJob) (now : Date) : Prop :=
  match lastRun job with
  | None => True
  | Some last => 60000 < getTime now - getTime last
  end.

(** Each of the five fields matches its calendar component of [dt]. *)
Definition fieldsMatch (job : RoutineJob) (dt : Date) : Prop :=
  matchesField (getMinutes dt) (minute job) = true /\
  matchesField (getHours dt) (hour job) = true /\
  matchesField (getDate dt) (day job) = true /\
  matchesField (getMonth dt + 1) (month job) = true /\
  matchesField (getDay dt) (weekday job) = true.

(** A polling loop: [shouldRun] at each clock reading in turn.  The result is
    the list of decisions and the object after the last call. *)
Fixpoint poll (job : RoutineJob) (clock : list Date)
  : list bool * RoutineJob :=
  match clock with
  | [] => ([], job)
  | now :: later =>
      let '(fire, job') := shouldRun job now in
      let '(fires, job'') := poll job' later in
      (fire :: fires, job'')
  end.

(** The clock readings at which the polling loop fired, oldest first. *)
Fixpoint firings (job : RoutineJob) (clock : list Date) : list Date :=
  match clock with
  | [] => []
  | now :: later =>
      let '(fire, job') := shouldRun job now in
      if fire then now :: firings job' later else firings job' later
  end.

End Host.

(** ** Sample hosts and jobs *)

(** A host whose local time is UTC. *)
Definition UTC (t : Z) : Z := 0.

(** A host five hours behind UTC. *)
Definition UTC_minus_5 (t : Z) : Z := -18000000.

(** The job [new RoutineJob("weekly", "0 9 * * 1", logger)]: Mondays at
    09:00. *)
Definition weeklyJob : RoutineJob :=
  {| name := "weekly"; lastRun := None; minute := "0"; hour := "9";
     day := "*"; month := "*"; weekday := "1" |}.

(** The job of the expression [* * * * *], having fired at the epoch. *)
Definition minutelyJob : RoutineJob :=
  {| name := "minutely"; lastRun := Some 0; minute := "*"; hour := "*";
     day := "*"; month := "*"; weekday := "*" |}.

(** Monday 2024-01-01, 09:00:00 UTC. *)
Definition monday_9am : Date := 1704099600000.

(** ** Further notions used in the statements *)

(** [pieces.join(c)] for a one-character separator [c]. *)
Fixpoint join (pieces : list string) (c : ascii) : string :=
  match pieces with
  | [] => EmptyString
  | [piece] => piece
  | piece :: rest => piece ++ String c (join rest c)
  end.

(** The number of occurrences of a character in a string. *)
Fixpoint occurrences (s : string) (c : ascii) : nat :=
  match s with
  | EmptyString => O
  | String a s' =>
      if Ascii.eqb a c then S (occurrences s' c) else occurrences s' c
  end.

(** The integer a run of decimal digits denotes, as [JS.scanDigits] reads
    it; 0 for the empty string. *)
Definition decimalValue (s : string) : Z :=
  fst (fst (JS.scanDigits 10 s 0 0%nat)).

(** The largest magnitude up to which every integer is a double. *)
Definition maxSafe : Z := 2 ^ 53.

(** Clock readings at a fixed cadence: [n] readings from [t0], [step]
    milliseconds apart. *)
Definition cadence (t0 step : Z) (n : nat) : list Date :=
  map (fun k => t0 + step * Z.of_nat k) (seq 0 n).

(** The job of the expression [* * * * *] before its first poll. *)
Definition everyMinuteJob : RoutineJob :=
  {| name := "minutely"; lastRun := None; minute := "*"; hour := "*";
     day := "*"; month := "*"; weekday := "*" |}.

(** A host on US Eastern time around the end of daylight saving time on
    2024-11-03: four hours behind UTC before 06:00 UTC, five hours after. *)
Definition Eastern_2024_11_03 (t : Z) : Z :=
  if t <? 1730613600000 then -14400000 else -18000000.

(** The job [new RoutineJob("nightly", "30 1 * * *", logger)]: every day at
    01:30. *)
Definition nightlyJob : RoutineJob :=
  {| name := "nightly"; lastRun := None; minute := "30"; hour := "1";
     day := "*"; month := "*"; weekday := "*" |}.

(** * Properties *)

(** ** Facts about the runtime model *)

Module JSFacts.
Import JS.

Lemma array_includes_In (arr : list string) (x : string) :
  array_includes arr x = true <-> In x arr.
Proof.
  unfold array_includes. rewrite existsb_exists. split.
  - intros [y [Hin Heq]]. apply String.eqb_eq in Heq. now subst.
  - intros Hin. exists x. split; [assumption | apply String.eqb_refl].
Qed.

(** A string without the separator is a single piece. *)
Lemma split_without (s : string) (c : ascii) :
  includes s c = false -> split s c = [s].
Proof.
  induction s as [|a s IH]; simpl; [reflexivity|].
  destruct (Ascii.eqb a c); [discriminate|].
  intros H. now rewrite (IH H).
Qed.

(** A string with the separator has at least two pieces. *)
Lemma split_with (s : string) (c : ascii) :
  includes s c = true -> (2 <= List.length (split s c))%nat.
Proof.
  induction s as [|a s IH]; simpl; [discriminate|].
  destruct (Ascii.eqb a c).
  - intros _. destruct s; simpl.
    + lia.
    + destruct (Ascii.eqb a0 c); simpl; [lia|].
      destruct (split s c); simpl; lia.
  - intros H. specialize (IH H).
    destruct (split s c) as [|p ps]; simpl in *; lia.
Qed.

Lemma split_nonempty (s : string) (c : ascii) : split s c <> [].
Proof.
  destruct s as [|a s]; simpl; [discriminate|].
  destruct (Ascii.eqb a c); [discriminate|].
  destruct (split s c); discriminate.
Qed.

(** Splitting a separator-free piece off the front. *)
Lemma split_app (a rest : string) (c : ascii) :
  includes a c = false ->
  split (a ++ String c rest) c = a :: split rest c.
Proof.
  induction a as [|x a IH]; simpl.
  - intros _. now rewrite Ascii.eqb_refl.
  - destruct (Ascii.eqb x c); [discriminate|].
    intros H. now rewrite (IH H).
Qed.

(** The numeral of an integer reads back as that integer. *)
Lemma toString_parse (v : Z) :
  NilZero.int_of_string (toString v) = Some (Z.to_int v).
Proof.
  unfold toString. apply NilZero.isi.
  - destruct v as [|p|p]; simpl; try discriminate.
    intros [= H]. now apply (DecimalPos.Unsigned.to_uint_nonnil p).
  - destruct v as [|p|p]; simpl; try discriminate.
    intros [= H]. now apply (DecimalPos.Unsigned.to_uint_nonnil p).
Qed.

Lemma toString_inj (v w : Z) : toString v = toString w -> v = w.
Proof.
  intros H. apply DecimalZ.to_int_inj.
  assert (E : Some (Z.to_int v) = Some (Z.to_int w))
    by (rewrite <- !toString_parse; now rewrite H).
  now injection E.
Qed.

(** A string that does not read as a numeral is no integer's [toString]. *)
Lemma toString_unparsed (s : string) (v : Z) :
  NilZero.int_of_string s = None -> toString v <> s.
Proof.
  intros Hs Hv. rewrite <- Hv, toString_parse in Hs. discriminate.
Qed.

Lemma eqb_toString (v w : Z) :
  String.eqb (toString v) (toString w) = (v =? w).
Proof.
  destruct (Z.eqb_spec v w) as [->|Hne].
  - apply String.eqb_refl.
  - apply String.eqb_neq. intros H. now apply Hne, toString_inj.
Qed.

(** [<=] is transitive through a finite number. *)
Lemma le_trans_fin (a b : number) (q : Q) :
  le a (Fin q) = true -> le (Fin q) b = true -> le a b = true.
Proof.
  destruct a as [| | |x], b as [| | |y]; simpl; try discriminate; try reflexivity.
  rewrite !Qle_bool_iff. apply Qle_trans.
Qed.

Lemma lt_not_le (a b : number) : lt b a = true -> le a b = false.
Proof.
  destruct a as [| | |x], b as [| | |y]; simpl; try discriminate; try reflexivity.
  now intros ->%negb_true_iff.
Qed.

Lemma le_of_int (v w : Z) : le (of_int v) (of_int w) = (v <=? w).
Proof.
  unfold of_int, le, Qle_bool. simpl. now rewrite !Z.mul_1_r.
Qed.

Lemma strict_eq_of_int_inj (n : number) (v w : Z) :
  strict_eq n (of_int v) = true -> strict_eq n (of_int w) = true -> v = w.
Proof.
  destruct n as [| | |q]; simpl; try discriminate.
  rewrite !Qeq_bool_iff. intros Hv Hw.
  apply inject_Z_injective. now rewrite <- Hv, <- Hw.
Qed.

End JSFacts.

(** ** The numerals [toString] produces *)

Module Numerals.
Import JS.

Lemma string_of_uint_digits (u : Decimal.uint) :
  allDecimalDigits (NilEmpty.string_of_uint u) = true.
Proof. induction u; simpl; auto. Qed.

(** The numeral of an integer is a run of digits, behind a minus sign when
    the integer is negative. *)
Lemma toString_shape (v : Z) :
  exists digits, digits <> EmptyString /\ allDecimalDigits digits = true /\
    toString v = if v <? 0 then String "-" digits else digits.
Proof.
  destruct v as [|p|p].
  - exists "0". repeat split. discriminate.
  - exists (NilEmpty.string_of_uint (Pos.to_uint p)). split; [|split].
    + pose proof (DecimalPos.Unsigned.to_uint_nonnil p) as Hn.
      destruct (Pos.to_uint p); simpl; try discriminate. now destruct Hn.
    + apply string_of_uint_digits.
    + unfold toString. simpl.
      pose proof (DecimalPos.Unsigned.to_uint_nonnil p) as Hn.
      destruct (Pos.to_uint p); simpl; try reflexivity. now destruct Hn.
  - exists (NilEmpty.string_of_uint (Pos.to_uint p)). split; [|split].
    + pose proof (DecimalPos.Unsigned.to_uint_nonnil p) as Hn.
      destruct (Pos.to_uint p); simpl; try discriminate. now destruct Hn.
    + apply string_of_uint_digits.
    + unfold toString. simpl. f_equal.
      pose proof (DecimalPos.Unsigned.to_uint_nonnil p) as Hn.
      destruct (Pos.to_uint p); simpl; try reflexivity. now destruct Hn.
Qed.

(** Every numeral is a decimal integer in the generous reading. *)
Lemma toString_isDecimalInteger (v : Z) : isDecimalInteger (toString v) = true.
Proof.
  destruct (toString_shape v) as [digits [Hne [Hd ->]]].
  destruct (v <? 0).
  - unfold isDecimalInteger. simpl. destruct digits; [now destruct Hne | exact Hd].
  - unfold isDecimalInteger.
    destruct digits as [|a digits]; [now destruct Hne|].
    simpl in Hd. apply andb_prop in Hd as [Ha Hd].
    assert (Hs : scanSign (String a digits) = (1, String a digits)).
    { unfold scanSign.
      destruct (Ascii.eqb_spec a "-") as [->|]; [discriminate|].
      destruct (Ascii.eqb_spec a "+") as [->|]; [discriminate|].
      destruct a as [[] [] [] [] [] [] [] []]; try reflexivity; congruence. }
    rewrite Hs. simpl. now rewrite Ha, Hd.
Qed.

Lemma digit_not_white (a c : ascii) :
  isDecimalDigit a = true -> isWhiteSpace c = true -> Ascii.eqb a c = false.
Proof.
  intros Ha Hc. destruct (Ascii.eqb_spec a c) as [->|]; [|reflexivity].
  unfold isDecimalDigit, isWhiteSpace in *. lia.
Qed.

Lemma digits_without_white (s : string) (c : ascii) :
  allDecimalDigits s = true -> isWhiteSpace c = true -> includes s c = false.
Proof.
  intros Hs Hc. induction s as [|a s IH]; simpl in *; [reflexivity|].
  apply andb_prop in Hs as [Ha Hs].
  rewrite (digit_not_white a c Ha Hc). auto.
Qed.

(** No numeral contains white space. *)
Lemma toString_without_white (v : Z) (c : ascii) :
  isWhiteSpace c = true -> includes (toString v) c = false.
Proof.
  intros Hc. destruct (toString_shape v) as [digits [_ [Hd ->]]].
  destruct (v <? 0).
  - change (includes (String "-" digits) c)
      with (if Ascii.eqb "-" c then true else includes digits c).
    destruct (Ascii.eqb_spec "-" c) as [<-|]; [discriminate|].
    now apply digits_without_white.
  - now apply digits_without_white.
Qed.

(** No numeral of two or more characters starts with a zero. *)
Lemma toString_no_leading_zero (v : Z) (c : ascii) (rest : string) :
  toString v <> String "0" (String c rest).
Proof.
  intros H.
  assert (Hnorm : Decimal.norm (Z.to_int v) = Z.to_int v)
    by (rewrite <- DecimalZ.to_of; now rewrite DecimalZ.of_to).
  unfold toString in H.
  destruct (Z.to_int v) as [u|u]; simpl in H; [|discriminate].
  injection Hnorm as Hu.
  destruct u as [|u|u|u|u|u|u|u|u|u|u]; simpl in H; try discriminate.
  injection H as H.
  assert (Hne : u <> Decimal.Nil) by (intros ->; discriminate).
  pose proof (DecimalFacts.nb_digits_unorm u Hne) as Hle.
  change (Decimal.unorm (Decimal.D0 u)) with (Decimal.unorm u) in Hu.
  rewrite Hu in Hle. simpl in Hle. lia.
Qed.

End Numerals.

(** ** The field matcher *)

Section FieldMatcher.
Import JS.

Lemma matchesField_star (value : Z) : matchesField value "*" = true.
Proof. reflexivity. Qed.

Lemma includes_not_star (pattern : string) (c : ascii) :
  includes pattern c = true -> c <> "*"%char -> String.eqb pattern "*" = false.
Proof.
  intros H Hc. destruct (String.eqb_spec pattern "*") as [->|]; [|reflexivity].
  exfalso. cbn [includes] in H.
  revert H. destruct (Ascii.eqb_spec "*" c) as [E|E]; intros H;
    [now apply Hc | discriminate H].
Qed.

(** A pattern with a comma is matched as a list, with or without a dash. *)
Lemma matchesField_list (pattern : string) (value : Z) :
  includes pattern "," = true ->
  matchesField value pattern
  = array_includes (split pattern ",") (toString value).
Proof.
  intros H. unfold matchesField.
  rewrite (includes_not_star pattern "," H) by discriminate.
  now rewrite H.
Qed.

(** A pattern with a dash and no comma is matched as a range. *)
Lemma matchesField_range (pattern : string) (value : Z) :
  includes pattern "," = false -> includes pattern "-" = true ->
  matchesField value pattern
  = le (range_start pattern) (of_int value)
    && le (of_int value) (range_end pattern).
Proof.
  intros Hc Hd. unfold matchesField.
  rewrite (includes_not_star pattern "-" Hd) by discriminate.
  now rewrite Hc, Hd.
Qed.

(** Any other pattern than ["*"] is matched through [parseInt]. *)
Lemma matchesField_exact (pattern : string) (value : Z) :
  pattern <> "*" ->
  includes pattern "," = false -> includes pattern "-" = false ->
  matchesField value pattern = strict_eq (parseInt pattern) (of_int value).
Proof.
  intros Hs Hc Hd. unfold matchesField.
  destruct (String.eqb_spec pattern "*"); [contradiction|].
  now rewrite Hc, Hd.
Qed.

End FieldMatcher.

Section FieldMatcherClaims.
Import JS JSFacts Numerals.

Lemma range_9_17 : range_start "9-17" = of_int 9 /\ range_end "9-17" = of_int 17.
Proof. split; vm_compute; reflexivity. Qed.

(** C5. ["*"] matches every value; the list ["1,15,30"] matches exactly 1,
    15 and 30; the range ["9-17"] matches exactly the values from 9 to 17;
    a range pattern matches exactly when [start <= value <= end], and when
    its start exceeds its end it matches no value. *)
Theorem matchesField_any_list_range :
  (forall value, matchesField value "*" = true) /\
  (forall value,
      matchesField value "1,15,30" = true
      <-> value = 1 \/ value = 15 \/ value = 30) /\
  (forall value, matchesField value "9-17" = true <-> 9 <= value <= 17) /\
  (forall pattern value,
      includes pattern "," = false -> includes pattern "-" = true ->
      (matchesField value pattern = true
       <-> le (range_start pattern) (of_int value) = true
           /\ le (of_int value) (range_end pattern) = true)) /\
  (forall pattern value,
      includes pattern "," = false -> includes pattern "-" = true ->
      lt (range_end pattern) (range_start pattern) = true ->
      matchesField value pattern = false).
Proof.
  split; [exact matchesField_star|].
  split.
  { intros value. rewrite matchesField_list by reflexivity.
    change (split "1,15,30" ",")
      with [toString 1; toString 15; toString 30].
    unfold array_includes. simpl existsb.
    rewrite !eqb_toString, orb_false_r, !orb_true_iff, !Z.eqb_eq.
    tauto. }
  split.
  { intros value. rewrite matchesField_range by reflexivity.
    destruct range_9_17 as [-> ->].
    rewrite !le_of_int, andb_true_iff, !Z.leb_le. tauto. }
  split.
  { intros pattern value Hc Hd.
    rewrite (matchesField_range pattern value Hc Hd).
    apply andb_true_iff. }
  intros pattern value Hc Hd Hgt.
  rewrite (matchesField_range pattern value Hc Hd).
  apply not_true_is_false. intros H.
  apply andb_true_iff in H as [H1 H2].
  pose proof (le_trans_fin _ _ _ H1 H2) as Hle.
  rewrite (lt_not_le _ _ Hgt) in Hle. discriminate.
Qed.

Lemma matchesField_any_list_range_witness :
  includes "17-9" "," = false /\ includes "17-9" "-" = true /\
  lt (range_end "17-9") (range_start "17-9") = true /\
  matchesField 12 "17-9" = false.
Proof.
  split; [reflexivity|]. split; [reflexivity|]. split; [reflexivity|].
  apply (proj2 (proj2 (proj2 (proj2 matchesField_any_list_range))) "17-9" 12);
    reflexivity.
Defined.

(** C8. Dispatch is by substring: a comma makes the pattern a list even
    when it has a dash, a dash without comma makes it a range, anything else
    but ["*"] goes through [parseInt].  ["1-3,5"] is hence the list of the
    pieces ["1-3"] and ["5"]; it matches exactly the value 5, the piece
    ["1-3"] being no integer's numeral. *)
Theorem list_before_range_before_exact :
  (forall pattern value,
      includes pattern "," = true ->
      matchesField value pattern
      = array_includes (split pattern ",") (toString value)) /\
  (forall pattern value,
      includes pattern "," = false -> includes pattern "-" = true ->
      matchesField value pattern
      = le (range_start pattern) (of_int value)
        && le (of_int value) (range_end pattern)) /\
  (forall pattern value,
      pattern <> "*" ->
      includes pattern "," = false -> includes pattern "-" = false ->
      matchesField value pattern
      = strict_eq (parseInt pattern) (of_int value)) /\
  split "1-3,5" "," = ["1-3"; "5"] /\
  (forall value, matchesField value "1-3,5" = true <-> value = 5) /\
  (forall value, array_includes ["1-3"] (toString value) = false).
Proof.
  split; [exact matchesField_list|].
  split; [exact matchesField_range|].
  split; [exact matchesField_exact|].
  split; [reflexivity|].
  assert (Hpiece : forall value, String.eqb (toString value) "1-3" = false).
  { intros value. apply String.eqb_neq.
    now apply toString_unparsed. }
  split.
  - intros value. rewrite matchesField_list by reflexivity.
    change (split "1-3,5" ",") with ["1-3"; toString 5].
    unfold array_includes. simpl existsb.
    rewrite Hpiece, eqb_toString, orb_false_r. simpl. apply Z.eqb_eq.
  - intros value. unfold array_includes. simpl.
    now rewrite Hpiece.
Qed.

Lemma list_before_range_before_exact_witness :
  includes "9-17" "," = false /\ includes "9-17" "-" = true /\
  matchesField 12 "9-17"
  = le (range_start "9-17") (of_int 12) && le (of_int 12) (range_end "9-17").
Proof.
  split; [reflexivity|]. split; [reflexivity|].
  apply (proj1 (proj2 list_before_range_before_exact) "9-17" 12); reflexivity.
Defined.

(** A token whose first character behind the leading white space and sign is
    no decimal digit has no integer prefix. *)
Lemma parseInt_no_digit (token : string) :
  match snd (scanSign (trimStart token)) with
  | EmptyString => True
  | String c _ => isDecimalDigit c = false
  end ->
  parseInt token = NaN.
Proof.
  unfold parseInt.
  destruct (scanSign (trimStart token)) as [sign s1]. simpl.
  destruct s1 as [|c s1]; [reflexivity|].
  intros Hc.
  assert (Hscan : scanDigits 10 (String c s1) 0 0%nat = (0, 0%nat, String c s1)).
  { simpl. unfold digitValue, isDecimalDigit in *.
    destruct ((48 <=? Z.of_N (N_of_ascii c)) && (Z.of_N (N_of_ascii c) <=? 57));
      [discriminate|].
    destruct ((97 <=? Z.of_N (N_of_ascii c)) && (Z.of_N (N_of_ascii c) <=? 122)) eqn:E1.
    - destruct (Z.ltb_spec (Z.of_N (N_of_ascii c) - 87) 10); [lia|reflexivity].
    - destruct ((65 <=? Z.of_N (N_of_ascii c)) && (Z.of_N (N_of_ascii c) <=? 90)) eqn:E2;
        [|reflexivity].
      destruct (Z.ltb_spec (Z.of_N (N_of_ascii c) - 55) 10); [lia|reflexivity]. }
  assert (Hzero : isDecimalDigit "0" = true) by reflexivity.
  destruct (Ascii.eqb_spec c "0") as [->|Hne]; [congruence|].
  replace (match String c s1 with
           | String "0" (String "x" r) | String "0" (String "X" r) => (16, r)
           | _ => (10, String c s1)
           end) with (10, String c s1).
  - now rewrite Hscan.
  - destruct c as [[] [] [] [] [] [] [] []]; try reflexivity. now destruct Hne.
Qed.

(** The claim C9 as stated fails: ["5abc"] is a token with neither comma nor
    dash, is not ["*"] and is no integer's decimal representation, yet it
    matches the value 5, since [parseInt] reads the leading digits. *)
Lemma unparseable_exact_token_matches :
  "5abc" <> "*" /\
  includes "5abc" "," = false /\ includes "5abc" "-" = false /\
  isDecimalInteger "5abc" = false /\
  (forall z, toString z <> "5abc") /\
  matchesField 5 "5abc" = true.
Proof.
  split; [discriminate|].
  split; [reflexivity|]. split; [reflexivity|]. split; [reflexivity|].
  split; [|reflexivity].
  intros z. now apply toString_unparsed.
Qed.

(** C10. A pattern with a comma matches a value exactly when one of its
    comma-separated pieces is, character for character, the decimal numeral
    of the value.  A piece with a leading zero, with white space or in any
    other spelling than the numeral never matches, even where [parseInt] or
    [Number] would read it as the value. *)
Theorem list_matches_by_text :
  (forall pattern value,
      includes pattern "," = true ->
      (matchesField value pattern = true
       <-> In (toString value) (split pattern ","))) /\
  (forall pattern value,
      includes pattern "," = true ->
      (forall piece, In piece (split pattern ",") -> piece <> toString value) ->
      matchesField value pattern = false) /\
  (forall value c rest, toString value <> String "0" (String c rest)) /\
  (forall value piece c,
      isWhiteSpace c = true -> includes piece c = true ->
      toString value <> piece) /\
  (parseInt "05" = of_int 5 /\ Number "05" = of_int 5 /\
   matchesField 5 "05,6" = false) /\
  (Number " 5" = of_int 5 /\ matchesField 5 " 5,6" = false) /\
  (Number "5 " = of_int 5 /\ matchesField 5 "5 ,6" = false) /\
  (Number "+5" = of_int 5 /\ matchesField 5 "+5,6" = false) /\
  (Number "5.0" = of_int 5 /\ matchesField 5 "5.0,6" = false) /\
  matchesField 5 "5,6" = true.
Proof.
  assert (Hiff : forall pattern value,
             includes pattern "," = true ->
             (matchesField value pattern = true
              <-> In (toString value) (split pattern ","))).
  { intros pattern value H. rewrite (matchesField_list pattern value H).
    apply array_includes_In. }
  split; [exact Hiff|]. split.
  { intros pattern value H Hall. apply not_true_is_false. intros Hm.
    apply (Hiff pattern value H) in Hm. now apply (Hall _ Hm). }
  split; [exact toString_no_leading_zero|]. split.
  { intros value piece c Hw Hin Heq. subst piece.
    rewrite (toString_without_white value c Hw) in Hin. discriminate. }
  repeat split; vm_compute; reflexivity.
Qed.

Lemma list_matches_by_text_witness :
  includes "1,15,30" "," = true /\
  (matchesField 15 "1,15,30" = true
   <-> In (toString 15) (split "1,15,30" ",")).
Proof.
  split; [reflexivity|].
  apply (proj1 list_matches_by_text "1,15,30" 15). reflexivity.
Defined.

End FieldMatcherClaims.

(** ** The constructor *)

Section Constructor.
Import JS JSFacts.

(** The claim C3 as stated fails in both directions when fields are counted
    as white-space-separated tokens: an expression with a doubled space has
    five such tokens and is rejected, and an expression with a leading space
    and four tokens is accepted, with an empty minute field. *)
Lemma whitespace_tokens_not_the_field_count :
  (whitespace_tokens "0  9 * * 1" = ["0"; "9"; "*"; "*"; "1"] /\
   new_RoutineJob "job" "0  9 * * 1" = inl (mkError "Invalid cron expression")) /\
  (whitespace_tokens " 0 9 * *" = ["0"; "9"; "*"; "*"] /\
   new_RoutineJob "job" " 0 9 * *"
   = inr {| name := "job"; lastRun := None; minute := ""; hour := "0";
            day := "9"; month := "*"; weekday := "*" |}).
Proof. repeat split. Qed.

Lemma new_RoutineJob_cases (name expression : string) :
  match new_RoutineJob name expression with
  | inr job =>
      split expression " "
      = [minute job; hour job; day job; month job; weekday job] /\
      getName job = name /\ lastRun job = None
  | inl err =>
      List.length (split expression " ") <> 5%nat /\
      err = mkError "Invalid cron expression"
  end.
Proof.
  unfold new_RoutineJob.
  destruct (Nat.eqb_spec (List.length (split expression " ")) 5) as [H|H]; simpl.
  - destruct (split expression " ") as [|a [|b [|c [|d [|f [|g l]]]]]];
      try discriminate. repeat split.
  - split; [assumption|reflexivity].
Qed.

(** C3, amended.  The constructor splits the expression at every single
    space character.  It succeeds exactly when that yields five pieces, which
    become the minute, hour, day, month and weekday fields in this order, and
    otherwise throws the error [Invalid cron expression].  Any five tokens
    without a space, joined by single spaces, are accepted whatever their
    text. *)
Theorem new_RoutineJob_five_pieces (name expression : string) :
  match new_RoutineJob name expression with
  | inr job =>
      split expression " "
      = [minute job; hour job; day job; month job; weekday job] /\
      getName job = name /\ lastRun job = None
  | inl err =>
      List.length (split expression " ") <> 5%nat /\
      err = mkError "Invalid cron expression"
  end /\
  (forall a b c d f : string,
      includes a " " = false -> includes b " " = false ->
      includes c " " = false -> includes d " " = false ->
      includes f " " = false ->
      new_RoutineJob name (a ++ " " ++ b ++ " " ++ c ++ " " ++ d ++ " " ++ f)
      = inr {| name := name; lastRun := None; minute := a; hour := b;
               day := c; month := d; weekday := f |}).
Proof.
  split; [apply new_RoutineJob_cases|].
  intros a b c d f Ha Hb Hc Hd Hf.
  unfold new_RoutineJob.
  cbn [append].
  rewrite !split_app, (split_without f " ") by assumption.
  reflexivity.
Qed.

Lemma new_RoutineJob_five_pieces_witness :
  new_RoutineJob "job" ("0" ++ " " ++ "9-17" ++ " " ++ "*" ++ " " ++ "1,6" ++ " " ++ "MON")
  = inr {| name := "job"; lastRun := None; minute := "0"; hour := "9-17";
           day := "*"; month := "1,6"; weekday := "MON" |}.
Proof.
  apply (proj2 (new_RoutineJob_five_pieces "job" "") "0" "9-17" "*" "1,6" "MON");
    reflexivity.
Defined.

End Constructor.

(** ** The calendar *)

Module CalendarFacts.
Import Calendar.

Lemma DaysInYear_cases (y : Z) : DaysInYear y = 365 \/ DaysInYear y = 366.
Proof.
  unfold DaysInYear.
  destruct (y mod 4 =? 0), (y mod 100 =? 0), (y mod 400 =? 0); simpl; auto.
Qed.

Lemma DayFromYear_succ (y : Z) :
  DayFromYear (y + 1) = DayFromYear y + DaysInYear y.
Proof.
  unfold DayFromYear, DaysInYear.
  destruct (Z.eqb_spec (y mod 4) 0), (Z.eqb_spec (y mod 100) 0),
    (Z.eqb_spec (y mod 400) 0); cbn [negb]; Z.div_mod_to_equations; lia.
Qed.

(** [YearFromDay] is the year the day falls in. *)
Lemma YearFromDay_spec (d : Z) :
  DayFromYear (YearFromDay d) <= d < DayFromYear (YearFromDay d + 1).
Proof.
  unfold YearFromDay.
  set (y := 1970 + d * 400 / 146097).
  assert (Hlo : DayFromYear (y - 1) <= d)
    by (unfold DayFromYear, y; Z.div_mod_to_equations; lia).
  assert (Hhi : d < DayFromYear (y + 2))
    by (unfold DayFromYear, y; Z.div_mod_to_equations; lia).
  destruct (Z.ltb_spec d (DayFromYear y)).
  - replace (y - 1 + 1) with y by lia. lia.
  - destruct (Z.leb_spec (DayFromYear (y + 1)) d).
    + replace (y + 1 + 1) with (y + 2) by lia. lia.
    + lia.
Qed.

Lemma DayFromYear_mono (y y' : Z) :
  y <= y' -> DayFromYear y <= DayFromYear y'.
Proof. unfold DayFromYear. intros H. Z.div_mod_to_equations. lia. Qed.

(** It is the largest year that starts on or before the day. *)
Lemma YearFromDay_largest (d y : Z) :
  DayFromYear y <= d -> y <= YearFromDay d.
Proof.
  intros H. pose proof (YearFromDay_spec d) as [_ Hd].
  destruct (Z.le_gt_cases y (YearFromDay d)) as [|Hgt]; [assumption|].
  pose proof (DayFromYear_mono (YearFromDay d + 1) y). lia.
Qed.

Lemma DayWithinYear_range (t : Z) :
  0 <= DayWithinYear t < 365 + InLeapYear t.
Proof.
  unfold DayWithinYear, InLeapYear, YearFromTime.
  pose proof (YearFromDay_spec (Day t)) as H.
  rewrite DayFromYear_succ in H.
  destruct (DaysInYear_cases (YearFromDay (Day t))) as [E|E];
    rewrite E in *; simpl; lia.
Qed.

Lemma InLeapYear_cases (t : Z) : InLeapYear t = 0 \/ InLeapYear t = 1.
Proof. unfold InLeapYear. destruct (_ =? 366); auto. Qed.

Lemma MonthFromTime_range (t : Z) : 0 <= MonthFromTime t <= 11.
Proof.
  unfold MonthFromTime.
  repeat match goal with
         | |- context [if ?b then _ else _] => destruct b
         end; lia.
Qed.

Lemma DateFromTime_range (t : Z) : 1 <= DateFromTime t <= 31.
Proof.
  pose proof (DayWithinYear_range t) as Hd.
  unfold DateFromTime, MonthFromTime.
  destruct (InLeapYear_cases t) as [E|E]; rewrite E in *;
    repeat match goal with
           | |- context [if ?a <? ?b then _ else _] => destruct (Z.ltb_spec a b)
           end; lia.
Qed.

Lemma WeekDay_range (t : Z) : 0 <= WeekDay t <= 6.
Proof. unfold WeekDay. pose proof (Z.mod_pos_bound (Day t + 4) 7). lia. Qed.

Lemma HourFromTime_range (t : Z) : 0 <= HourFromTime t <= 23.
Proof.
  unfold HourFromTime. pose proof (Z.mod_pos_bound (t / msPerHour) 24). lia.
Qed.

Lemma MinFromTime_range (t : Z) : 0 <= MinFromTime t <= 59.
Proof.
  unfold MinFromTime. pose proof (Z.mod_pos_bound (t / msPerMinute) 60). lia.
Qed.

End CalendarFacts.

(** ** The trigger evaluator *)

Section Evaluator.

Variable LocalTZA : Z -> Z.

Lemma matchesSchedule_andb (job : RoutineJob) (dt : Date) :
  matchesSchedule LocalTZA job dt
  = matchesField (getMinutes LocalTZA dt) (minute job)
    && matchesField (getHours LocalTZA dt) (hour job)
    && matchesField (getDate LocalTZA dt) (day job)
    && matchesField (getMonth LocalTZA dt + 1) (month job)
    && matchesField (getDay LocalTZA dt) (weekday job).
Proof.
  unfold matchesSchedule.
  destruct (matchesField (getMinutes LocalTZA dt) (minute job)),
    (matchesField (getHours LocalTZA dt) (hour job)),
    (matchesField (getDate LocalTZA dt) (day job)),
    (matchesField (getMonth LocalTZA dt + 1) (month job)),
    (matchesField (getDay LocalTZA dt) (weekday job)); reflexivity.
Qed.

Lemma matchesSchedule_fieldsMatch (job : RoutineJob) (dt : Date) :
  matchesSchedule LocalTZA job dt = true <-> fieldsMatch LocalTZA job dt.
Proof.
  rewrite matchesSchedule_andb. unfold fieldsMatch.
  rewrite !andb_true_iff. tauto.
Qed.

(** C4. The schedule matches a timestamp exactly when all five fields match:
    the minute, the hour, the day of the month, the month counted from 1
    ([getMonth] plus one) and the day of the week from 0 to 6, each in the
    local time of the host. *)
Theorem matchesSchedule_conjunction (job : RoutineJob) (t : Date) :
  matchesSchedule LocalTZA job t
  = matchesField (getMinutes LocalTZA t) (minute job)
    && matchesField (getHours LocalTZA t) (hour job)
    && matchesField (getDate LocalTZA t) (day job)
    && matchesField (getMonth LocalTZA t + 1) (month job)
    && matchesField (getDay LocalTZA t) (weekday job) /\
  0 <= getMinutes LocalTZA t <= 59 /\
  0 <= getHours LocalTZA t <= 23 /\
  1 <= getDate LocalTZA t <= 31 /\
  0 <= getMonth LocalTZA t <= 11 /\
  1 <= getMonth LocalTZA t + 1 <= 12 /\
  0 <= getDay LocalTZA t <= 6.
Proof.
  split; [apply matchesSchedule_andb|].
  pose proof (CalendarFacts.MinFromTime_range (LocalTime LocalTZA t)).
  pose proof (CalendarFacts.HourFromTime_range (LocalTime LocalTZA t)).
  pose proof (CalendarFacts.DateFromTime_range (LocalTime LocalTZA t)).
  pose proof (CalendarFacts.MonthFromTime_range (LocalTime LocalTZA t)).
  pose proof (CalendarFacts.WeekDay_range (LocalTime LocalTZA t)).
  unfold getMinutes, getHours, getDate, getMonth, getDay. lia.
Qed.

(** The two outcomes of a poll. *)
Lemma shouldRun_cases (job : RoutineJob) (now : Date) :
  (armed job now /\ fieldsMatch LocalTZA job now /\
   shouldRun LocalTZA job now = (true, set_lastRun job now)) \/
  ((~ armed job now \/ ~ fieldsMatch LocalTZA job now) /\
   shouldRun LocalTZA job now = (false, job)).
Proof.
  unfold shouldRun, armed.
  destruct (lastRun job) as [last|].
  - destruct (Z.ltb_spec 60000 (getTime now - getTime last)).
    + destruct (matchesSchedule LocalTZA job now) eqn:E.
      * left. now rewrite <- matchesSchedule_fieldsMatch.
      * right. split; [right|reflexivity].
        rewrite <- matchesSchedule_fieldsMatch, E. discriminate.
    + right. split; [left; lia|reflexivity].
  - destruct (matchesSchedule LocalTZA job now) eqn:E.
    + left. now rewrite <- matchesSchedule_fieldsMatch.
    + right. split; [right|reflexivity].
      rewrite <- matchesSchedule_fieldsMatch, E. discriminate.
Qed.

Lemma shouldRun_fires (job : RoutineJob) (t : Date) :
  armed job t -> fieldsMatch LocalTZA job t ->
  shouldRun LocalTZA job t = (true, set_lastRun job t).
Proof.
  intros Ha Hm.
  destruct (shouldRun_cases job t) as [[_ [_ H]]|[[H|H] _]];
    [assumption | contradiction | contradiction].
Qed.

(** C1. At a timestamp at which the evaluator is armed and all five fields
    match, [shouldRun] returns true and records the timestamp as the last
    run in that call; a matching timestamp more than 60 seconds after this
    fire fires again. *)
Theorem shouldRun_fires_when_armed (job : RoutineJob) (t : Date) :
  armed job t -> fieldsMatch LocalTZA job t ->
  shouldRun LocalTZA job t = (true, set_lastRun job t) /\
  lastRun (snd (shouldRun LocalTZA job t)) = Some t /\
  (forall t3 : Date,
      60000 < getTime t3 - getTime t ->
      fieldsMatch LocalTZA job t3 ->
      fst (shouldRun LocalTZA (snd (shouldRun LocalTZA job t)) t3) = true /\
      lastRun (snd (shouldRun LocalTZA (snd (shouldRun LocalTZA job t)) t3))
      = Some t3).
Proof.
  intros Ha Hm.
  rewrite (shouldRun_fires job t Ha Hm).
  split; [reflexivity|]. split; [reflexivity|].
  intros t3 Hlate Hm3. simpl snd.
  rewrite (shouldRun_fires (set_lastRun job t) t3); [split; reflexivity| |].
  - exact Hlate.
  - exact Hm3.
Qed.

(** C2. Within the 60 seconds after the last run, [shouldRun] returns false,
    whatever the schedule. *)
Theorem shouldRun_blocked_in_window (job : RoutineJob) (last t2 : Date) :
  lastRun job = Some last ->
  0 < getTime t2 - getTime last <= 60000 ->
  shouldRun LocalTZA job t2 = (false, job).
Proof.
  intros Hl Hw. unfold shouldRun. rewrite Hl.
  destruct (Z.ltb_spec 60000 (getTime t2 - getTime last)); [lia|reflexivity].
Qed.

(** C7. A call of [shouldRun] that returns false leaves the object as it
    was: the last run and the five fields of the schedule. *)
Theorem shouldRun_false_unchanged (job : RoutineJob) (now : Date) :
  fst (shouldRun LocalTZA job now) = false ->
  snd (shouldRun LocalTZA job now) = job /\
  lastRun (snd (shouldRun LocalTZA job now)) = lastRun job /\
  minute (snd (shouldRun LocalTZA job now)) = minute job /\
  hour (snd (shouldRun LocalTZA job now)) = hour job /\
  day (snd (shouldRun LocalTZA job now)) = day job /\
  month (snd (shouldRun LocalTZA job now)) = month job /\
  weekday (snd (shouldRun LocalTZA job now)) = weekday job.
Proof.
  destruct (shouldRun_cases job now) as [[_ [_ H]]|[_ H]]; rewrite H; simpl.
  - discriminate.
  - intros _. repeat split.
Qed.

(** The schedule of the object is the same after every call. *)
Lemma shouldRun_schedule (job : RoutineJob) (now : Date) :
  let job' := snd (shouldRun LocalTZA job now) in
  name job' = name job /\ minute job' = minute job /\ hour job' = hour job /\
  day job' = day job /\ month job' = month job /\ weekday job' = weekday job.
Proof.
  destruct (shouldRun_cases job now) as [[_ [_ H]]|[_ H]]; rewrite H; simpl;
    repeat split.
Qed.

(** Successive firings are more than the window apart, and all of them are
    more than the window after the last run before the loop. *)
Lemma firings_spaced (clock : list Date) :
  forall job : RoutineJob,
    StronglySorted (fun a b => a + 60000 < b) (firings LocalTZA job clock) /\
    (forall last, lastRun job = Some last ->
                  Forall (fun t => last + 60000 < t)
                    (firings LocalTZA job clock)).
Proof.
  induction clock as [|now later IH]; intros job; simpl.
  - split; [constructor|]. intros; constructor.
  - destruct (shouldRun_cases job now) as [[Ha [_ H]]|[_ H]]; rewrite H.
    + destruct (IH (set_lastRun job now)) as [Hs Hf].
      specialize (Hf now eq_refl).
      split.
      * now constructor.
      * intros last Hl. unfold armed in Ha. rewrite Hl in Ha.
        unfold getTime in Ha.
        constructor; [lia|].
        eapply Forall_impl; [|exact Hf]. simpl. intros; lia.
    + apply IH.
Qed.

Lemma spaced_sorted (l : list Z) :
  StronglySorted (fun a b => a + 60000 < b) l -> StronglySorted Z.lt l.
Proof.
  induction 1 as [|a l _ IH Ha]; constructor; [exact IH|].
  eapply Forall_impl; [|exact Ha]. simpl. intros; lia.
Qed.

Lemma poll_lastRun (clock : list Date) :
  forall job : RoutineJob,
    lastRun (snd (poll LocalTZA job clock))
    = match rev (firings LocalTZA job clock) with
      | [] => lastRun job
      | t :: _ => Some t
      end.
Proof.
  induction clock as [|now later IH]; intros job; simpl; [reflexivity|].
  destruct (shouldRun_cases job now) as [[_ [_ H]]|[_ H]]; rewrite H.
  - specialize (IH (set_lastRun job now)).
    destruct (poll LocalTZA (set_lastRun job now) later) as [fires job''].
    simpl in *. rewrite IH.
    destruct (rev (firings LocalTZA (set_lastRun job now) later)); reflexivity.
  - specialize (IH job).
    destruct (poll LocalTZA job later) as [fires job'']. exact IH.
Qed.

(** C6. Over any sequence of polls the timestamps at which the job fired
    are strictly increasing and later than the last run before the
    sequence; the last run after the sequence is the latest firing, or the
    earlier value when there was none; and a call that changes the last run
    is a call that returns true and stores its own timestamp. *)
Theorem lastRun_strictly_increasing (job : RoutineJob) (clock : list Date) :
  StronglySorted Z.lt (firings LocalTZA job clock) /\
  (forall last, lastRun job = Some last ->
                Forall (fun t => last < t) (firings LocalTZA job clock)) /\
  lastRun (snd (poll LocalTZA job clock))
  = match rev (firings LocalTZA job clock) with
    | [] => lastRun job
    | t :: _ => Some t
    end /\
  (forall now : Date,
      lastRun (snd (shouldRun LocalTZA job now)) <> lastRun job ->
      fst (shouldRun LocalTZA job now) = true /\
      lastRun (snd (shouldRun LocalTZA job now)) = Some now /\
      (forall last, lastRun job = Some last -> last < now)).
Proof.
  destruct (firings_spaced clock job) as [Hs Hf].
  split; [|split; [|split]].
  - now apply spaced_sorted.
  - intros last Hl. eapply Forall_impl; [|exact (Hf last Hl)].
    simpl. intros; lia.
  - apply poll_lastRun.
  - intros now.
    destruct (shouldRun_cases job now) as [[Ha [_ H]]|[_ H]]; rewrite H; simpl.
    + intros _. split; [reflexivity|]. split; [reflexivity|].
      intros last Hl. unfold armed in Ha. rewrite Hl in Ha.
      unfold getTime in Ha. lia.
    + intros Hne. now destruct Hne.
Qed.

End Evaluator.

(** ** Instances on sample hosts *)

Lemma shouldRun_fires_when_armed_witness :
  shouldRun UTC weeklyJob monday_9am
  = (true, set_lastRun weeklyJob monday_9am) /\
  fst (shouldRun UTC (snd (shouldRun UTC weeklyJob monday_9am))
         (monday_9am + 604800000)) = true.
Proof.
  assert (Ha : armed weeklyJob monday_9am) by exact I.
  assert (Hm : fieldsMatch UTC weeklyJob monday_9am)
    by (repeat split; vm_compute; reflexivity).
  destruct (shouldRun_fires_when_armed UTC weeklyJob monday_9am Ha Hm)
    as [H1 [_ H3]].
  split; [exact H1|].
  apply (H3 (monday_9am + 604800000)).
  - vm_compute. reflexivity.
  - repeat split; vm_compute; reflexivity.
Defined.

Lemma shouldRun_blocked_in_window_witness :
  fieldsMatch UTC minutelyJob 30000 /\
  shouldRun UTC minutelyJob 30000 = (false, minutelyJob).
Proof.
  split; [repeat split|].
  apply (shouldRun_blocked_in_window UTC minutelyJob 0 30000).
  - reflexivity.
  - unfold getTime. lia.
Defined.

Lemma shouldRun_false_unchanged_witness :
  snd (shouldRun UTC weeklyJob (monday_9am + 65000)) = weeklyJob.
Proof.
  apply (shouldRun_false_unchanged UTC weeklyJob (monday_9am + 65000)).
  vm_compute. reflexivity.
Defined.

Lemma lastRun_strictly_increasing_witness :
  Forall (fun t => 0 < t) (firings UTC minutelyJob [30000; 60001; 90000; 120002]).
Proof.
  apply (proj1 (proj2 (lastRun_strictly_increasing UTC minutelyJob
                         [30000; 60001; 90000; 120002])) 0).
  reflexivity.
Defined.

(** The scenario of the specification: the weekly job polled on a Monday at
    09:00:00, 09:00:30 and 09:01:05 and on the next Monday at 09:00:00. *)
Example weekly_scenario :
  fst (poll UTC weeklyJob
         [monday_9am; monday_9am + 30000; monday_9am + 65000;
          monday_9am + 604800000])
  = [true; false; false; true].
Proof. vm_compute. reflexivity. Qed.

(** The same instants seen from a host five hours behind UTC: the job fires
    at 14:00 UTC. *)
Example weekly_scenario_local :
  fst (poll UTC_minus_5 weeklyJob
         [monday_9am; monday_9am + 18000000; monday_9am + 18000000 + 30000])
  = [false; true; false].
Proof. vm_compute. reflexivity. Qed.

Example new_weeklyJob : new_RoutineJob "weekly" "0 9 * * 1" = inr weeklyJob.
Proof. reflexivity. Qed.

Example four_fields_rejected :
  new_RoutineJob "weekly" "0 9 * *" = inl (mkError "Invalid cron expression").
Proof. reflexivity. Qed.

(** * Further properties of the scheduler *)

(** ** Integers that are doubles *)

Module Doubles.
Import JS.

(** Rounding keeps every integer below 2^53 in magnitude. *)
Lemma round_double_int (n : Z) :
  Z.abs n < maxSafe ->
  exists q, round_double (inject_Z n) = Fin q /\ (q == inject_Z n)%Q.
Proof.
  unfold maxSafe. intros Hn. unfold round_double.
  change (Qnum (inject_Z n)) with n.
  change (Z.pos (Qden (inject_Z n))) with 1.
  destruct (Z.eqb_spec n 0) as [->|Hne].
  { exists 0%Q. split; reflexivity. }
  assert (Ha : 0 < Z.abs n) by lia.
  pose proof (Z.log2_spec (Z.abs n) Ha) as [Hlo Hhi].
  pose proof (Z.log2_nonneg (Z.abs n)) as Hlog.
  assert (Hle : Z.log2 (Z.abs n) <= 52).
  { destruct (Z.le_gt_cases (Z.log2 (Z.abs n)) 52) as [|Hgt]; [assumption|].
    assert (2 ^ 53 <= 2 ^ Z.log2 (Z.abs n))
      by (apply Z.pow_le_mono_r; lia).
    lia. }
  change (Z.log2 1) with 0. rewrite Z.sub_0_r.
  cbv zeta.
  destruct (Z.leb_spec 0 (Z.log2 (Z.abs n))) as [_|]; [|lia].
  rewrite Z.mul_1_l.
  destruct (Z.leb_spec (2 ^ Z.log2 (Z.abs n)) (Z.abs n)) as [_|]; [|lia].
  rewrite Z.max_l by lia.
  set (p := Z.log2 (Z.abs n) - 52).
  assert (Hsgn : Z.sgn n * Z.abs n = n) by lia.
  destruct (Z.leb_spec 0 p) as [Hp|Hp].
  - assert (Hp0 : p = 0) by lia. rewrite Hp0.
    change (2 ^ 0) with 1. rewrite !Z.mul_1_l, Z.div_1_r, Z.mod_1_r.
    rewrite !Z.mul_1_r.
    change (1 <? 2 * 0) with false. change (1 =? 2 * 0) with false.
    cbn [andb].
    destruct (Z.leb_spec (2 ^ 1024) (Z.abs n)) as [Hbig|_].
    { assert (2 ^ 53 < 2 ^ 1024) by (apply Z.pow_lt_mono_r; lia). lia. }
    eexists. split; [reflexivity|].
    rewrite Qred_correct, Hsgn. reflexivity.
  - assert (Hk : 0 < 2 ^ (- p)) by (apply Z.pow_pos_nonneg; lia).
    rewrite Z.div_1_r, Z.mod_1_r.
    change (1 <? 2 * 0) with false. change (1 =? 2 * 0) with false.
    cbn [andb].
    eexists. split; [reflexivity|].
    rewrite Qred_correct. unfold Qeq. simpl.
    rewrite Z2Pos.id by assumption. lia.
Qed.

Lemma le_fin_int (q : Q) (n v : Z) :
  (q == inject_Z n)%Q ->
  le (Fin q) (of_int v) = (n <=? v) /\ le (of_int v) (Fin q) = (v <=? n).
Proof.
  intros Hq. unfold le, of_int.
  rewrite !(Qleb_comp _ _ Hq _ _ (Qeq_refl _)).
  rewrite !(Qleb_comp _ _ (Qeq_refl _) _ _ Hq).
  unfold Qle_bool. simpl. rewrite !Z.mul_1_r. split; reflexivity.
Qed.

Lemma strict_eq_fin_int (q : Q) (n v : Z) :
  (q == inject_Z n)%Q -> strict_eq (Fin q) (of_int v) = (n =? v).
Proof.
  intros Hq. unfold strict_eq, of_int.
  destruct (Z.eqb_spec n v) as [->|Hne].
  - apply Qeq_eq_bool, Hq.
  - destruct (Qeq_bool q (inject_Z v)) eqn:E; [|reflexivity].
    apply Qeq_bool_iff in E. rewrite Hq in E.
    apply (proj1 (inject_Z_injective n v)) in E. contradiction.
Qed.

End Doubles.

(** ** Runs of decimal digits *)

Module DigitStrings.
Import JS JSFacts Numerals Doubles.

Lemma digit_char_facts (c : ascii) :
  isDecimalDigit c = true ->
  isWhiteSpace c = false /\ prefixRadix c = None /\
  c <> "-"%char /\ c <> "+"%char /\ c <> "."%char /\ c <> ","%char /\
  c <> "I"%char /\
  exists d, digitValue c = Some d /\ 0 <= d < 10.
Proof.
  destruct c as [[] [] [] [] [] [] [] []]; try discriminate; intros _;
    (repeat split; try discriminate);
    eexists; (split; [vm_compute; reflexivity|]);
    (split; [vm_compute; discriminate | reflexivity]).
Qed.

Lemma scanDigits_step (c : ascii) (s : string) (acc d : Z) (count : nat) :
  digitValue c = Some d -> d < 10 ->
  scanDigits 10 (String c s) acc count
  = scanDigits 10 s (acc * 10 + d) (S count).
Proof.
  intros Hd Hlt. cbn [scanDigits]. rewrite Hd.
  destruct (Z.ltb_spec d 10); [reflexivity|lia].
Qed.

(** A run of digits is read to its end. *)
Lemma scanDigits_all (s : string) :
  allDecimalDigits s = true ->
  forall acc count,
    scanDigits 10 s acc count
    = (fst (fst (scanDigits 10 s acc count)),
       (count + String.length s)%nat, EmptyString).
Proof.
  induction s as [|c s IH]; intros Hs acc count.
  - simpl. now rewrite Nat.add_0_r.
  - simpl in Hs. apply andb_prop in Hs as [Hc Hs].
    destruct (digit_char_facts c Hc) as (_ & _ & _ & _ & _ & _ & _ & d & Hd & Hr).
    rewrite (scanDigits_step c s acc d count Hd) by lia.
    rewrite (IH Hs) at 1. simpl String.length.
    now rewrite Nat.add_succ_r.
Qed.

Lemma scanDigits_decimalValue (s : string) :
  allDecimalDigits s = true ->
  scanDigits 10 s 0 0%nat = (decimalValue s, String.length s, EmptyString).
Proof. intros Hs. now rewrite (scanDigits_all s Hs). Qed.

Lemma scan_uint_acc (u : Decimal.uint) :
  forall (acc : positive) (count : nat),
    fst (fst (scanDigits 10 (NilEmpty.string_of_uint u) (Z.pos acc) count))
    = Z.pos (Pos.of_uint_acc u acc).
Proof.
  induction u; intros acc count; [reflexivity| ..];
    cbn [NilEmpty.string_of_uint Pos.of_uint_acc];
    match goal with
    | |- context [scanDigits 10 (String ?c ?s) ?a ?n] =>
        let d := eval vm_compute in (Z.of_N (N_of_ascii c) - 48) in
        rewrite (scanDigits_step c s a d n) by (reflexivity || lia)
    end;
    match goal with
    | |- fst (fst (scanDigits 10 _ ?a _)) = Z.pos (Pos.of_uint_acc _ ?acc') =>
        replace a with (Z.pos acc'); [|lia]
    end;
    apply IHu.
Qed.

Lemma scan_uint (u : Decimal.uint) :
  forall count : nat,
    fst (fst (scanDigits 10 (NilEmpty.string_of_uint u) 0 count))
    = Z.of_N (Pos.of_uint u).
Proof.
  induction u; intros count; [reflexivity| ..];
    cbn [NilEmpty.string_of_uint Pos.of_uint];
    match goal with
    | |- context [scanDigits 10 (String ?c ?s) ?a ?n] =>
        let d := eval vm_compute in (Z.of_N (N_of_ascii c) - 48) in
        rewrite (scanDigits_step c s a d n) by (reflexivity || lia)
    end;
    [apply IHu | apply (scan_uint_acc u _ (S count)) ..].
Qed.

(** The numeral of a natural number is a run of digits and reads back as
    the number. *)
Lemma toString_digits (n : Z) :
  0 <= n ->
  allDecimalDigits (toString n) = true /\ toString n <> EmptyString /\
  decimalValue (toString n) = n.
Proof.
  intros Hn.
  destruct (toString_shape n) as [digits [Hne [Hd Heq]]].
  destruct (Z.ltb_spec n 0); [lia|]. rewrite Heq.
  split; [assumption|]. split; [assumption|]. rewrite <- Heq.
  unfold decimalValue, toString. destruct n as [|p|p]; [reflexivity| |lia].
  simpl Z.to_int. cbn [NilZero.string_of_int NilZero.string_of_uint].
  pose proof (DecimalPos.Unsigned.to_uint_nonnil p) as Hnn.
  pose proof (DecimalPos.Unsigned.of_to p) as Hof.
  assert (Hs : NilZero.string_of_uint (Pos.to_uint p)
               = NilEmpty.string_of_uint (Pos.to_uint p))
    by (destruct (Pos.to_uint p); [now destruct Hnn | reflexivity ..]).
  rewrite Hs, scan_uint, Hof. reflexivity.
Qed.

Lemma trimStart_digits (s : string) :
  allDecimalDigits s = true -> trimStart s = s.
Proof.
  destruct s as [|c s]; [reflexivity|]. simpl. intros H.
  apply andb_prop in H as [Hc _].
  destruct (digit_char_facts c Hc) as (Hw & _). now rewrite Hw.
Qed.

Lemma trimEnd_digits (s : string) :
  allDecimalDigits s = true -> trimEnd s = s.
Proof.
  induction s as [|c s IH]; [reflexivity|]. simpl. intros H.
  apply andb_prop in H as [Hc Hs].
  destruct (digit_char_facts c Hc) as (Hw & _).
  rewrite (IH Hs). destruct s; [now rewrite Hw | reflexivity].
Qed.

Lemma scanSign_digits (s : string) :
  allDecimalDigits s = true -> scanSign s = (1, s).
Proof.
  destruct s as [|c s]; [reflexivity|]. simpl. intros H.
  apply andb_prop in H as [Hc _].
  destruct (digit_char_facts c Hc) as (_ & _ & Hm & Hp & _).
  destruct c as [[] [] [] [] [] [] [] []]; try reflexivity; congruence.
Qed.

(** [parseInt] of a run of digits is the double of its value. *)
Lemma parseInt_digits (s : string) :
  allDecimalDigits s = true -> s <> EmptyString ->
  parseInt s = round_double (inject_Z (decimalValue s)).
Proof.
  intros Hs Hne. unfold parseInt.
  rewrite (trimStart_digits s Hs), (scanSign_digits s Hs).
  assert (Hdec : match s with
                 | String "0" (String "x" r) | String "0" (String "X" r) =>
                     (16, r)
                 | _ => (10, s)
                 end = (10, s)).
  { destruct s as [|c [|c2 r]]; [reflexivity| |].
    - destruct c as [[] [] [] [] [] [] [] []]; reflexivity.
    - simpl in Hs. apply andb_prop in Hs as [_ Hs].
      apply andb_prop in Hs as [Hc2 _].
      destruct c as [[] [] [] [] [] [] [] []]; try reflexivity.
      destruct c2 as [[] [] [] [] [] [] [] []]; try reflexivity;
        discriminate Hc2. }
  rewrite Hdec, (scanDigits_decimalValue s Hs).
  destruct s; [now destruct Hne|]. simpl String.length.
  now rewrite Z.mul_1_l.
Qed.

Lemma decimalLiteral_digits (s : string) :
  allDecimalDigits s = true -> s <> EmptyString ->
  decimalLiteral s = round_double (inject_Z (decimalValue s)).
Proof.
  intros Hs Hne. unfold decimalLiteral.
  rewrite (scanSign_digits s Hs).
  destruct (String.eqb_spec s "Infinity") as [->|_]; [discriminate Hs|].
  rewrite (scanDigits_decimalValue s Hs).
  destruct s; [now destruct Hne|]. simpl String.length.
  cbn [Nat.add scanExponent]. simpl Z.sub.
  change (0 <=? 0) with true. cbv iota.
  now rewrite Z.mul_1_l, Z.mul_1_r.
Qed.

(** [Number] of a run of digits, empty or not, is the double of its
    value. *)
Lemma Number_digits (s : string) :
  allDecimalDigits s = true ->
  Number s = round_double (inject_Z (decimalValue s)).
Proof.
  intros Hs. unfold Number.
  rewrite (trimStart_digits s Hs), (trimEnd_digits s Hs).
  destruct s as [|c [|c2 r]]; [reflexivity| |].
  - rewrite <- decimalLiteral_digits by (assumption || discriminate).
    destruct c as [[] [] [] [] [] [] [] []]; reflexivity.
  - rewrite <- decimalLiteral_digits by (assumption || discriminate).
    pose proof Hs as Hs'. simpl in Hs'. apply andb_prop in Hs' as [_ Hs'].
    apply andb_prop in Hs' as [Hc2 _].
    destruct (digit_char_facts c2 Hc2) as (_ & Hp & _).
    destruct c as [[] [] [] [] [] [] [] []]; try reflexivity.
    now rewrite Hp.
Qed.

(** Below 2^53 the value is read exactly. *)
Lemma Number_digits_exact (s : string) :
  allDecimalDigits s = true -> decimalValue s < maxSafe ->
  0 <= decimalValue s ->
  exists q, Number s = Fin q /\ (q == inject_Z (decimalValue s))%Q.
Proof.
  intros Hs Hlt Hge. rewrite (Number_digits s Hs).
  apply round_double_int. lia.
Qed.

Lemma decimalValue_nonneg (s : string) : 0 <= decimalValue s.
Proof.
  unfold decimalValue.
  assert (H : forall acc count,
             0 <= acc -> 0 <= fst (fst (scanDigits 10 s acc count))).
  { induction s as [|c s IH]; intros acc count Hacc; [assumption|].
    cbn [scanDigits]. unfold digitValue.
    repeat match goal with
           | |- context [if ?b then _ else _] => destruct b eqn:?
           end; simpl; try assumption; apply IH; lia. }
  now apply H.
Qed.

Lemma includes_app (s t : string) (c : ascii) :
  includes (s ++ t) c = includes s c || includes t c.
Proof.
  induction s as [|a s IH]; simpl; [reflexivity|].
  destruct (Ascii.eqb a c); [reflexivity|assumption].
Qed.

Lemma digits_without (s : string) (c : ascii) :
  allDecimalDigits s = true -> isDecimalDigit c = false ->
  includes s c = false.
Proof.
  intros Hs Hc. induction s as [|a s IH]; [reflexivity|].
  simpl in *. apply andb_prop in Hs as [Ha Hs].
  destruct (Ascii.eqb_spec a c) as [->|]; [congruence|auto].
Qed.

End DigitStrings.

(** ** Patterns written as the grammar intends *)

Section Patterns.
Import JS JSFacts Numerals Doubles DigitStrings.

Lemma digits_not_star (s : string) :
  allDecimalDigits s = true -> s <> "*".
Proof. intros Hs ->. discriminate Hs. Qed.

(** A run of digits with neither comma nor dash is compared through its
    value. *)
Lemma matchesField_digits (s : string) (v : Z) :
  allDecimalDigits s = true -> s <> EmptyString ->
  decimalValue s < maxSafe ->
  matchesField v s = (decimalValue s =? v).
Proof.
  intros Hs Hne Hlt.
  rewrite matchesField_exact;
    [| now apply digits_not_star
     | now apply digits_without | now apply digits_without].
  rewrite (parseInt_digits s Hs Hne).
  pose proof (decimalValue_nonneg s) as Hge.
  destruct (round_double_int (decimalValue s)) as [q [-> Hq]]; [lia|].
  now apply strict_eq_fin_int.
Qed.

(** A pattern whose first two dash-separated pieces are runs of digits is
    the range between their values. *)
Lemma matchesField_digit_range (pattern s1 s2 : string) (others : list string)
    (v : Z) :
  split pattern "-" = s1 :: s2 :: others ->
  includes pattern "," = false ->
  allDecimalDigits s1 = true -> allDecimalDigits s2 = true ->
  decimalValue s1 < maxSafe -> decimalValue s2 < maxSafe ->
  matchesField v pattern = (decimalValue s1 <=? v) && (v <=? decimalValue s2).
Proof.
  intros Hsplit Hc H1 H2 Hb1 Hb2.
  assert (Hd : includes pattern "-" = true).
  { destruct (includes pattern "-") eqn:E; [reflexivity|].
    rewrite (split_without pattern "-" E) in Hsplit. discriminate. }
  rewrite (matchesField_range pattern v Hc Hd).
  unfold range_start, range_end. rewrite Hsplit. cbn [map at_number nth].
  destruct (Number_digits_exact s1 H1 Hb1 (decimalValue_nonneg s1))
    as [q1 [-> Hq1]].
  destruct (Number_digits_exact s2 H2 Hb2 (decimalValue_nonneg s2))
    as [q2 [-> Hq2]].
  destruct (le_fin_int q1 (decimalValue s1) v Hq1) as [-> _].
  destruct (le_fin_int q2 (decimalValue s2) v Hq2) as [_ ->].
  reflexivity.
Qed.

Lemma toString_without_comma (n : Z) : includes (toString n) "," = false.
Proof.
  destruct (toString_shape n) as [digits [_ [Hd ->]]].
  destruct (n <? 0).
  - change (includes (String "-" digits) ",") with (includes digits ",").
    now apply digits_without.
  - now apply digits_without.
Qed.

(** X3. A field that is the numeral of a natural number below 2^53 matches
    exactly that number. *)
Theorem exact_numeral_matches_its_value (n v : Z) :
  0 <= n < maxSafe ->
  (matchesField v (toString n) = true <-> v = n).
Proof.
  intros [Hge Hlt].
  destruct (toString_digits n Hge) as [Hd [Hne Hval]].
  rewrite (matchesField_digits (toString n) v Hd Hne) by (rewrite Hval; lia).
  rewrite Hval, Z.eqb_eq. split; intros; now subst.
Qed.

Lemma exact_numeral_matches_its_value_witness :
  0 <= 30 < maxSafe /\ (matchesField 30 (toString 30) = true <-> 30 = 30).
Proof.
  assert (H : 0 <= 30 < maxSafe) by (unfold maxSafe; lia).
  split; [exact H|]. exact (exact_numeral_matches_its_value 30 30 H).
Defined.

(** X4. A field of two numerals of natural numbers below 2^53 joined by a
    dash matches exactly the values between the two, both included. *)
Theorem range_numerals_match_interval (a b v : Z) :
  0 <= a < maxSafe -> 0 <= b < maxSafe ->
  (matchesField v (toString a ++ "-" ++ toString b) = true <-> a <= v <= b).
Proof.
  intros [Ha Ha'] [Hb Hb'].
  destruct (toString_digits a Ha) as [Hda [_ Hva]].
  destruct (toString_digits b Hb) as [Hdb [_ Hvb]].
  rewrite (matchesField_digit_range _ (toString a) (toString b) [] v);
    try assumption; try (rewrite ?Hva, ?Hvb; lia).
  - cbn [append]. rewrite split_app by (apply digits_without; auto).
    rewrite split_without by (apply digits_without; auto). reflexivity.
  - cbn [append]. rewrite includes_app. cbn [includes].
    change (Ascii.eqb "-" ",") with false. cbv iota.
    now rewrite !toString_without_comma.
Qed.

Lemma range_numerals_match_interval_witness :
  matchesField 3 (toString 1 ++ "-" ++ toString 5) = true <-> 1 <= 3 <= 5.
Proof.
  apply (range_numerals_match_interval 1 5 3); unfold maxSafe; lia.
Defined.

Lemma join_cons (piece next : string) (rest : list string) (c : ascii) :
  join (piece :: next :: rest) c = piece ++ String c (join (next :: rest) c).
Proof. reflexivity. Qed.

(** Splitting undoes joining when no piece has the separator. *)
Lemma split_join (pieces : list string) (c : ascii) :
  pieces <> [] ->
  Forall (fun piece => includes piece c = false) pieces ->
  split (join pieces c) c = pieces.
Proof.
  induction pieces as [|piece rest IH]; intros Hne Hall; [now destruct Hne|].
  inversion Hall as [|? ? Hp Hrest]; subst.
  destruct rest as [|next rest].
  - simpl. now apply split_without.
  - rewrite join_cons, split_app by assumption.
    f_equal. apply IH; [discriminate|assumption].
Qed.

Lemma join_includes (piece next : string) (rest : list string) (c : ascii) :
  includes (join (piece :: next :: rest) c) c = true.
Proof.
  rewrite join_cons, includes_app. cbn [includes].
  rewrite Ascii.eqb_refl. apply orb_true_r.
Qed.

(** X5. A field of two or more numerals of integers below 2^53 in
    magnitude, joined by commas, matches a value below 2^53 in magnitude
    exactly when the value is one of the integers listed. *)
Theorem list_numerals_match_members (ns : list Z) (v : Z) :
  (2 <= List.length ns)%nat ->
  Forall (fun n => Z.abs n < maxSafe) ns ->
  Z.abs v < maxSafe ->
  (matchesField v (join (map toString ns) ",") = true <-> In v ns).
Proof.
  intros Hlen _ _.
  destruct ns as [|n [|m ns]]; simpl in Hlen; try lia.
  rewrite matchesField_list by apply join_includes.
  rewrite split_join.
  - rewrite array_includes_In, in_map_iff. split.
    + intros [w [Hw Hin]]. apply toString_inj in Hw. now subst.
    + intros Hin. now exists v.
  - discriminate.
  - apply Forall_forall. intros piece Hin.
    apply in_map_iff in Hin as [w [<- _]]. apply toString_without_comma.
Qed.

Lemma list_numerals_match_members_witness :
  matchesField 15 (join (map toString [1; 15; 30]) ",") = true
  <-> In 15 [1; 15; 30].
Proof.
  apply (list_numerals_match_members [1; 15; 30] 15).
  - simpl. lia.
  - repeat constructor.
  - reflexivity.
Defined.

(** X6. A missing bound of a range is 0: a field written like a negative
    number, a dash and the numeral of [n], matches the values from 0 to [n],
    and a numeral followed by a dash matches the values from [n] to 0, that
    is none when [n] is positive. *)
Theorem open_range_bound_is_zero (n v : Z) :
  0 <= n < maxSafe ->
  (matchesField v ("-" ++ toString n) = true <-> 0 <= v <= n) /\
  (matchesField v (toString n ++ "-") = true <-> n <= v <= 0).
Proof.
  intros [Hge Hlt].
  destruct (toString_digits n Hge) as [Hd [_ Hval]].
  assert (H0 : decimalValue "" < maxSafe) by reflexivity.
  assert (Hcomma : includes (toString n) "," = false)
    by apply toString_without_comma.
  assert (Hdash : includes (toString n) "-" = false)
    by (apply digits_without; auto).
  split.
  - rewrite (matchesField_digit_range _ "" (toString n) [] v);
      [| | | reflexivity | exact Hd | exact H0 | rewrite Hval; lia].
    + rewrite Hval. change (decimalValue "") with 0. lia.
    + cbn [append split]. change (Ascii.eqb "-" "-") with true. cbv iota.
      now rewrite (split_without _ _ Hdash).
    + exact Hcomma.
  - rewrite (matchesField_digit_range _ (toString n) "" [] v);
      [| | | exact Hd | reflexivity | rewrite Hval; lia | exact H0].
    + rewrite Hval. change (decimalValue "") with 0. lia.
    + now rewrite (split_app _ _ _ Hdash).
    + rewrite includes_app, Hcomma. reflexivity.
Qed.

Lemma open_range_bound_is_zero_witness :
  (matchesField 3 ("-" ++ toString 5) = true <-> 0 <= 3 <= 5) /\
  (matchesField 3 (toString 5 ++ "-") = true <-> 5 <= 3 <= 0).
Proof.
  apply (open_range_bound_is_zero 5 3). unfold maxSafe. lia.
Defined.

(** X7. Only the first two dash-separated pieces of a range count: whatever
    follows a second dash, commas apart, is ignored. *)
Theorem range_extra_pieces_ignored (a b v : Z) (rest : string) :
  0 <= a < maxSafe -> 0 <= b < maxSafe ->
  includes rest "," = false ->
  (matchesField v (toString a ++ "-" ++ toString b ++ "-" ++ rest) = true
   <-> a <= v <= b).
Proof.
  intros [Ha Ha'] [Hb Hb'] Hrest.
  destruct (toString_digits a Ha) as [Hda [_ Hva]].
  destruct (toString_digits b Hb) as [Hdb [_ Hvb]].
  rewrite (matchesField_digit_range _ (toString a) (toString b)
             (split rest "-") v);
    try assumption; try (rewrite ?Hva, ?Hvb; lia).
  - cbn [append]. rewrite !split_app by (apply digits_without; auto).
    reflexivity.
  - cbn [append]. rewrite includes_app. cbn [includes].
    change (Ascii.eqb "-" ",") with false. cbv iota.
    rewrite includes_app. cbn [includes].
    change (Ascii.eqb "-" ",") with false. cbv iota.
    now rewrite !toString_without_comma, Hrest.
Qed.

Lemma range_extra_pieces_ignored_witness :
  matchesField 4 (toString 1 ++ "-" ++ toString 3 ++ "-" ++ "5") = true
  <-> 1 <= 4 <= 3.
Proof.
  apply (range_extra_pieces_ignored 1 3 4 "5");
    [unfold maxSafe; lia | unfold maxSafe; lia | reflexivity].
Defined.

Lemma scanDigits_count_irrelevant (R : Z) (s : string) :
  forall acc c1 c2,
    fst (fst (scanDigits R s acc c1)) = fst (fst (scanDigits R s acc c2)).
Proof.
  induction s as [|a s IH]; intros acc c1 c2; [reflexivity|].
  cbn [scanDigits]. destruct (digitValue a) as [d|]; [|reflexivity].
  destruct (d <? R); [apply IH|reflexivity].
Qed.

Lemma decimalValue_leading_zero (s : string) :
  decimalValue (String "0" s) = decimalValue s.
Proof.
  unfold decimalValue.
  rewrite (scanDigits_step "0" s 0 0 0) by (reflexivity || lia).
  apply scanDigits_count_irrelevant.
Qed.

(** X8. Outside lists a field is read by value, not by text: any run of
    decimal digits whose value is below 2^53 matches exactly its value, so
    a numeral with a leading zero matches the same number as without it. *)
Theorem digit_run_matches_by_value (s : string) (v : Z) :
  allDecimalDigits s = true -> s <> EmptyString ->
  decimalValue s < maxSafe ->
  (matchesField v s = true <-> v = decimalValue s) /\
  (matchesField v (String "0" s) = true <-> v = decimalValue s).
Proof.
  intros Hs Hne Hlt. split.
  - rewrite (matchesField_digits s v Hs Hne Hlt), Z.eqb_eq.
    split; intros; now subst.
  - rewrite (matchesField_digits (String "0" s) v);
      [| simpl; now rewrite Hs | discriminate
       | now rewrite decimalValue_leading_zero].
    rewrite decimalValue_leading_zero, Z.eqb_eq. split; intros; now subst.
Qed.

Lemma digit_run_matches_by_value_witness :
  decimalValue "07" = 7 /\
  (matchesField 7 "07" = true <-> 7 = decimalValue "07").
Proof.
  split; [reflexivity|].
  apply (proj1 (digit_run_matches_by_value "07" 7 eq_refl
                  ltac:(discriminate) eq_refl)).
Defined.

Lemma trimEnd_head (a : ascii) (s : string) :
  isWhiteSpace a = false -> exists t, trimEnd (String a s) = String a t.
Proof.
  intros Ha. cbn [trimEnd]. destruct (trimEnd s).
  - rewrite Ha. now exists EmptyString.
  - now eexists.
Qed.

Lemma Number_star (s : string) : Number (String "*" s) = NaN.
Proof.
  unfold Number. cbn [trimStart]. change (isWhiteSpace "*") with false.
  cbv iota.
  destruct (trimEnd_head "*" s eq_refl) as [t ->]. reflexivity.
Qed.

(** X9. Only the one-character field ["*"] is a wildcard: a longer field
    that starts with ["*"] and has no comma, such as the step syntax
    [*/5] of cron, matches no value. *)
Theorem star_prefix_matches_nothing (rest : string) (v : Z) :
  rest <> EmptyString -> includes rest "," = false ->
  matchesField v (String "*" rest) = false.
Proof.
  intros Hne Hc.
  assert (Hcomma : includes (String "*" rest) "," = false) by exact Hc.
  destruct (includes (String "*" rest) "-") eqn:Hd.
  - rewrite (matchesField_range _ v Hcomma Hd).
    unfold range_start. cbn [split]. change (Ascii.eqb "*" "-") with false.
    cbv iota.
    destruct (split rest "-") as [|piece pieces];
      cbn [map at_number nth]; now rewrite Number_star.
  - rewrite matchesField_exact; [|intros [= ->]; now apply Hne|exact Hcomma|exact Hd].
    rewrite (parseInt_no_digit (String "*" rest)); reflexivity.
Qed.

Lemma star_prefix_matches_nothing_witness : matchesField 5 "*/5" = false.
Proof.
  apply (star_prefix_matches_nothing "/5" 5); [discriminate|reflexivity].
Defined.

End Patterns.

(** ** Tokens read through [parseInt] *)

Section ExactTokens.
Import JS JSFacts Numerals Doubles DigitStrings.

Lemma scanDigits_stop (c : ascii) (rest : string) (acc : Z) (count : nat) :
  isDecimalDigit c = false ->
  scanDigits 10 (String c rest) acc count = (acc, count, String c rest).
Proof.
  intros Hc. cbn [scanDigits]. unfold digitValue, isDecimalDigit in *.
  destruct ((48 <=? Z.of_N (N_of_ascii c)) && (Z.of_N (N_of_ascii c) <=? 57));
    [discriminate|].
  destruct ((97 <=? Z.of_N (N_of_ascii c)) && (Z.of_N (N_of_ascii c) <=? 122))
    eqn:E1.
  - destruct (Z.ltb_spec (Z.of_N (N_of_ascii c) - 87) 10); [lia|reflexivity].
  - destruct ((65 <=? Z.of_N (N_of_ascii c)) && (Z.of_N (N_of_ascii c) <=? 90))
      eqn:E2; [|reflexivity].
    destruct (Z.ltb_spec (Z.of_N (N_of_ascii c) - 55) 10); [lia|reflexivity].
Qed.

(** A run of digits followed by another character is read up to that
    character. *)
Lemma scanDigits_prefix (digits : string) (c : ascii) (rest : string) :
  allDecimalDigits digits = true -> isDecimalDigit c = false ->
  forall acc count,
    scanDigits 10 (digits ++ String c rest) acc count
    = (fst (fst (scanDigits 10 digits acc count)),
       (count + String.length digits)%nat, String c rest).
Proof.
  intros Hd Hc. induction digits as [|a digits IH]; intros acc count.
  - cbn [append]. rewrite (scanDigits_stop c rest acc count Hc).
    simpl. now rewrite Nat.add_0_r.
  - simpl in Hd. apply andb_prop in Hd as [Ha Hd].
    destruct (digit_char_facts a Ha) as (_ & _ & _ & _ & _ & _ & _ & d & Hv & Hr).
    cbn [append].
    rewrite (scanDigits_step a (digits ++ String c rest) acc d count Hv) by lia.
    rewrite (scanDigits_step a digits acc d count Hv) by lia.
    rewrite (IH Hd). simpl String.length. now rewrite Nat.add_succ_r.
Qed.

Lemma scanSign_digit_head (a : ascii) (s : string) :
  isDecimalDigit a = true -> scanSign (String a s) = (1, String a s).
Proof.
  destruct a as [[] [] [] [] [] [] [] []]; try discriminate; reflexivity.
Qed.

Lemma hex_prefix_absent (digits : string) (c : ascii) (rest : string) :
  allDecimalDigits digits = true -> digits <> EmptyString ->
  isDecimalDigit c = false ->
  ~ (digits = "0" /\ (c = "x" \/ c = "X")%char) ->
  match digits ++ String c rest with
  | String "0" (String "x" r) | String "0" (String "X" r) => (16, r)
  | _ => (10, digits ++ String c rest)
  end = (10, digits ++ String c rest).
Proof.
  intros Hd Hne Hc Hhex.
  destruct digits as [|a digits]; [now destruct Hne|].
  simpl in Hd. apply andb_prop in Hd as [Ha Hd]. cbn [append].
  destruct digits as [|a2 digits].
  - cbn [append].
    destruct a as [[] [] [] [] [] [] [] []]; try discriminate Ha;
      try reflexivity.
    destruct c as [[] [] [] [] [] [] [] []]; try reflexivity;
      exfalso; apply Hhex; split; auto.
  - simpl in Hd. apply andb_prop in Hd as [Ha2 _]. cbn [append].
    destruct a as [[] [] [] [] [] [] [] []]; try discriminate Ha;
      try reflexivity.
    destruct a2 as [[] [] [] [] [] [] [] []]; try discriminate Ha2;
      reflexivity.
Qed.

(** [parseInt] reads the leading run of digits of a token and stops at the
    first other character. *)
Lemma parseInt_digit_prefix (digits : string) (c : ascii) (rest : string) :
  allDecimalDigits digits = true -> digits <> EmptyString ->
  isDecimalDigit c = false ->
  ~ (digits = "0" /\ (c = "x" \/ c = "X")%char) ->
  parseInt (digits ++ String c rest)
  = round_double (inject_Z (decimalValue digits)).
Proof.
  intros Hd Hne Hc Hhex. unfold parseInt.
  assert (Hhead : exists a tail, digits ++ String c rest = String a tail /\
                                 isDecimalDigit a = true).
  { destruct digits as [|a digits]; [now destruct Hne|].
    simpl in Hd. apply andb_prop in Hd as [Ha _].
    exists a, (digits ++ String c rest). split; [reflexivity|exact Ha]. }
  destruct Hhead as [a [tail [Heq Ha]]].
  assert (Htrim : trimStart (digits ++ String c rest)
                  = digits ++ String c rest).
  { rewrite Heq. cbn [trimStart].
    destruct (digit_char_facts a Ha) as (Hw & _). now rewrite Hw. }
  assert (Hsign : scanSign (digits ++ String c rest)
                  = (1, digits ++ String c rest))
    by (rewrite Heq; now apply scanSign_digit_head).
  rewrite Htrim, Hsign.
  rewrite (hex_prefix_absent digits c rest Hd Hne Hc Hhex).
  rewrite (scanDigits_prefix digits c rest Hd Hc).
  destruct digits; [now destruct Hne|]. simpl String.length.
  cbn [Nat.add]. now rewrite Z.mul_1_l.
Qed.

(** C9, amended.  A token other than ["*"] with neither comma nor dash
    matches a value exactly when [parseInt] of the token is that value.  It
    matches at most one integer, so it never behaves as ["*"].  It matches
    no integer when [parseInt] yields NaN, which is the case whenever no
    decimal digit follows the leading white space and optional sign.  And
    when the token begins with a run of decimal digits of value below 2^53
    followed by a character that is no decimal digit, it matches exactly the
    value of that run; this last part is not stated for the digit 0
    followed by x or X. *)
Theorem exact_token_matches_parseInt (token : string) :
  token <> "*" ->
  includes token "," = false -> includes token "-" = false ->
  (forall value,
      matchesField value token = strict_eq (parseInt token) (of_int value)) /\
  (forall v w,
      matchesField v token = true -> matchesField w token = true -> v = w) /\
  (parseInt token = NaN -> forall value, matchesField value token = false) /\
  (match snd (scanSign (trimStart token)) with
   | EmptyString => True
   | String c _ => isDecimalDigit c = false
   end ->
   forall value, matchesField value token = false) /\
  (forall (digits : string) (c : ascii) (rest : string),
      token = digits ++ String c rest ->
      allDecimalDigits digits = true -> digits <> EmptyString ->
      decimalValue digits < maxSafe ->
      isDecimalDigit c = false ->
      ~ (digits = "0" /\ (c = "x" \/ c = "X")%char) ->
      forall value,
        matchesField value token = true <-> value = decimalValue digits).
Proof.
  intros Hs Hc Hd.
  assert (Hm : forall value,
             matchesField value token
             = strict_eq (parseInt token) (of_int value))
    by (intros; now apply matchesField_exact).
  split; [exact Hm|]. split; [|split; [|split]].
  - intros v w. rewrite !Hm. apply strict_eq_of_int_inj.
  - intros Hnan value. rewrite Hm, Hnan. reflexivity.
  - intros Hno value. rewrite Hm, (parseInt_no_digit token Hno). reflexivity.
  - intros digits c rest Heq Hdig Hne Hlt Hnd Hhex value.
    rewrite Hm, Heq, (parseInt_digit_prefix digits c rest Hdig Hne Hnd Hhex).
    pose proof (decimalValue_nonneg digits) as Hge.
    destruct (round_double_int (decimalValue digits)) as [q [-> Hq]]; [lia|].
    rewrite (strict_eq_fin_int q (decimalValue digits) value Hq), Z.eqb_eq.
    split; intros; now subst.
Qed.

Lemma exact_token_matches_parseInt_witness :
  matchesField 5 "5abc" = strict_eq (parseInt "5abc") (of_int 5) /\
  (forall value, matchesField value "MON" = false) /\
  (forall value, matchesField value "5abc" = true <-> value = decimalValue "5").
Proof.
  split; [|split].
  - apply (exact_token_matches_parseInt "5abc");
      [discriminate | reflexivity | reflexivity].
  - apply (exact_token_matches_parseInt "MON");
      [discriminate | reflexivity | reflexivity | reflexivity].
  - apply (proj2 (proj2 (proj2 (proj2
             (exact_token_matches_parseInt "5abc"
                ltac:(discriminate) eq_refl eq_refl)))) "5" "a"%char "bc");
      [reflexivity | reflexivity | discriminate | reflexivity | reflexivity|].
    intros [H _]. discriminate H.
Defined.

End ExactTokens.

(** ** The constructor and the text of the expression *)

Section ExpressionText.
Import JS JSFacts.

Lemma split_length (s : string) (c : ascii) :
  List.length (split s c) = S (occurrences s c).
Proof.
  induction s as [|a s IH]; [reflexivity|]. simpl.
  destruct (Ascii.eqb a c); simpl; [now rewrite IH|].
  destruct (split s c) as [|piece pieces]; simpl in *; [discriminate|assumption].
Qed.

(** Joining undoes splitting. *)
Lemma join_split (s : string) (c : ascii) : join (split s c) c = s.
Proof.
  induction s as [|a s IH]; [reflexivity|]. cbn [split].
  destruct (Ascii.eqb_spec a c) as [->|Hne].
  - destruct (split s c) as [|piece pieces] eqn:E;
      [now destruct (split_nonempty s c)|].
    cbn [join]. cbn [join] in IH. simpl. now rewrite IH.
  - destruct (split s c) as [|piece pieces] eqn:E;
      [now destruct (split_nonempty s c)|].
    destruct pieces as [|next rest]; simpl in *; now rewrite IH.
Qed.

Lemma split_pieces_without (s : string) (c : ascii) :
  Forall (fun piece => includes piece c = false) (split s c).
Proof.
  induction s as [|a s IH]; [repeat constructor|]. cbn [split].
  destruct (Ascii.eqb a c) eqn:E.
  - constructor; [reflexivity|assumption].
  - destruct (split s c) as [|piece pieces]; [repeat constructor; simpl; now rewrite E|].
    inversion IH; subst. constructor; [|assumption].
    simpl. now rewrite E.
Qed.

(** X1. The constructor accepts an expression exactly when it contains
    four space characters. *)
Theorem new_RoutineJob_iff_four_spaces (name expression : string) :
  (exists job, new_RoutineJob name expression = inr job)
  <-> occurrences expression " " = 4%nat.
Proof.
  pose proof (new_RoutineJob_cases name expression) as H.
  pose proof (split_length expression " ") as Hlen.
  destruct (new_RoutineJob name expression) as [err|job].
  - destruct H as [Hne _]. split; [intros [job [=]]|intros Hocc; lia].
  - destruct H as [Hsplit _]. rewrite Hsplit in Hlen. simpl in Hlen.
    split; [intros _; lia|intros _; now exists job].
Qed.

(** X2. An accepted expression is kept whole: its five fields joined by
    single spaces are the expression again, and no field contains a
    space. *)
Theorem new_RoutineJob_keeps_expression (name expression : string)
    (job : RoutineJob) :
  new_RoutineJob name expression = inr job ->
  minute job ++ " " ++ hour job ++ " " ++ day job ++ " " ++ month job
    ++ " " ++ weekday job = expression /\
  includes (minute job) " " = false /\ includes (hour job) " " = false /\
  includes (day job) " " = false /\ includes (month job) " " = false /\
  includes (weekday job) " " = false.
Proof.
  intros Hnew. pose proof (new_RoutineJob_cases name expression) as H.
  rewrite Hnew in H. destruct H as [Hsplit _].
  pose proof (join_split expression " ") as Hjoin.
  pose proof (split_pieces_without expression " ") as Hall.
  rewrite Hsplit in Hjoin, Hall. split; [exact Hjoin|].
  repeat match goal with
         | H : Forall _ (_ :: _) |- _ => inversion H; clear H; subst
         end.
  repeat split; assumption.
Qed.

Lemma new_RoutineJob_keeps_expression_witness :
  minute weeklyJob ++ " " ++ hour weeklyJob ++ " " ++ day weeklyJob ++ " "
    ++ month weeklyJob ++ " " ++ weekday weeklyJob = "0 9 * * 1".
Proof.
  apply (new_RoutineJob_keeps_expression "weekly" "0 9 * * 1" weeklyJob).
  reflexivity.
Defined.

End ExpressionText.

(** ** Sequences of polls *)

Section Polling.
Import JS.

Variable LocalTZA : Z -> Z.

(** A job whose schedule matches no instant never fires, and polling
    leaves it as it was. *)
Lemma never_matching_never_fires (job : RoutineJob) :
  (forall t, matchesSchedule LocalTZA job t = false) ->
  forall clock,
    poll LocalTZA job clock = (repeat false (List.length clock), job) /\
    firings LocalTZA job clock = [].
Proof.
  intros Hnever.
  assert (Hstep : forall t, shouldRun LocalTZA job t = (false, job)).
  { intros t. unfold shouldRun. rewrite Hnever. now destruct (lastRun job) as [last|];
      [destruct (60000 <? getTime t - getTime last)|]. }
  induction clock as [|now later [IHp IHf]]; [split; reflexivity|].
  cbn [poll firings]. rewrite Hstep, IHp, IHf. split; reflexivity.
Qed.

(** X10. When one of the five fields matches no value at all, the job never
    fires, whatever the sequence of polls, and its state never changes. *)
Theorem dead_field_never_fires (job : RoutineJob) (clock : list Date) :
  (forall v, matchesField v (minute job) = false) \/
  (forall v, matchesField v (hour job) = false) \/
  (forall v, matchesField v (day job) = false) \/
  (forall v, matchesField v (month job) = false) \/
  (forall v, matchesField v (weekday job) = false) ->
  poll LocalTZA job clock = (repeat false (List.length clock), job) /\
  firings LocalTZA job clock = [].
Proof.
  intros Hdead. apply never_matching_never_fires. intros t.
  rewrite matchesSchedule_andb.
  destruct Hdead as [H|[H|[H|[H|H]]]]; rewrite H;
    rewrite ?andb_false_r; reflexivity.
Qed.

(** X11. A numeral outside the range of its calendar component never
    matches: a job whose minute is 60 or more, whose hour is 24 or more,
    whose day is 0 or above 31, whose month is 0 or above 12, or whose
    weekday is 7 or more never fires. *)
Theorem out_of_range_numeral_never_fires (job : RoutineJob) (n : Z)
    (clock : list Date) :
  0 <= n < maxSafe ->
  (minute job = toString n /\ 60 <= n) \/
  (hour job = toString n /\ 24 <= n) \/
  (day job = toString n /\ (n = 0 \/ 32 <= n)) \/
  (month job = toString n /\ (n = 0 \/ 13 <= n)) \/
  (weekday job = toString n /\ 7 <= n) ->
  firings LocalTZA job clock = [].
Proof.
  intros [Hge Hlt] Hcase.
  destruct (DigitStrings.toString_digits n Hge) as [Hd [Hne Hval]].
  assert (Hm : forall v, matchesField v (toString n) = (n =? v)).
  { intros v. rewrite (matchesField_digits (toString n) v Hd Hne);
      rewrite Hval; [reflexivity|assumption]. }
  apply never_matching_never_fires. intros t.
  rewrite matchesSchedule_andb.
  pose proof (CalendarFacts.MinFromTime_range (LocalTime LocalTZA t)).
  pose proof (CalendarFacts.HourFromTime_range (LocalTime LocalTZA t)).
  pose proof (CalendarFacts.DateFromTime_range (LocalTime LocalTZA t)).
  pose proof (CalendarFacts.MonthFromTime_range (LocalTime LocalTZA t)).
  pose proof (CalendarFacts.WeekDay_range (LocalTime LocalTZA t)).
  unfold getMinutes, getHours, getDate, getMonth, getDay.
  destruct Hcase as [[-> Hn]|[[-> Hn]|[[-> Hn]|[[-> Hn]|[-> Hn]]]]];
    rewrite Hm;
    match goal with
    | |- context [n =? ?x] => destruct (Z.eqb_spec n x); [lia|]
    end;
    rewrite ?andb_false_r; reflexivity.
Qed.

(** X12. The job fires only at polled instants at which all five fields
    match. *)
Theorem fires_only_on_schedule (job : RoutineJob) (clock : list Date)
    (t : Date) :
  In t (firings LocalTZA job clock) ->
  In t clock /\ fieldsMatch LocalTZA job t.
Proof.
  revert job. induction clock as [|now later IH]; intros job Hin;
    [destruct Hin|].
  cbn [firings] in Hin.
  destruct (shouldRun_cases LocalTZA job now) as [[_ [Hm H]]|[_ H]];
    rewrite H in Hin.
  - destruct Hin as [<-|Hin]; [split; [now left|assumption]|].
    destruct (IH _ Hin) as [Hc Hf]. split; [now right|exact Hf].
  - destruct (IH _ Hin) as [Hc Hf]. split; [now right|exact Hf].
Qed.

Lemma spaced_nth (l : list Z) :
  StronglySorted (fun a b => a + 60000 < b) l ->
  forall i j, (i < j < List.length l)%nat ->
              nth i l 0 + 60000 * Z.of_nat (j - i) < nth j l 0.
Proof.
  induction 1 as [|a l Hs IH Ha]; intros i j Hij; [simpl in Hij; lia|].
  simpl in Hij. destruct j as [|j]; [lia|].
  assert (Hj : a + 60000 < nth j l 0).
  { rewrite Forall_forall in Ha. apply Ha, nth_In. lia. }
  destruct i as [|i].
  - cbn [nth]. destruct j as [|j]; [simpl; lia|].
    assert (H0 : a + 60000 < nth 0 l 0).
    { rewrite Forall_forall in Ha. apply Ha, nth_In. lia. }
    specialize (IH 0%nat (S j) ltac:(lia)).
    rewrite Nat.sub_0_r in *. lia.
  - cbn [nth]. specialize (IH i j ltac:(lia)).
    replace (S j - S i)%nat with (j - i)%nat by lia. exact IH.
Qed.

Lemma minute_lt (a b k : Z) :
  1 <= k -> a + 60000 * k < b -> a / 60000 < b / 60000.
Proof.
  intros Hk H.
  assert (Hd : a + 1 * 60000 <= b) by lia.
  apply (Z.div_le_mono _ _ 60000) in Hd; [|lia].
  rewrite Z.div_add in Hd by lia. lia.
Qed.

(** X13. However often the job is polled, its firings are more than a
    minute apart: the firing [j - i] places after another is more than
    [j - i] minutes later, so no two firings fall into the same minute. *)
Theorem firings_more_than_a_minute_apart (job : RoutineJob)
    (clock : list Date) (i j : nat) :
  (i < j < List.length (firings LocalTZA job clock))%nat ->
  nth i (firings LocalTZA job clock) 0 + 60000 * Z.of_nat (j - i)
  < nth j (firings LocalTZA job clock) 0 /\
  nth i (firings LocalTZA job clock) 0 / 60000
  < nth j (firings LocalTZA job clock) 0 / 60000.
Proof.
  intros Hij.
  pose proof (spaced_nth _ (proj1 (firings_spaced LocalTZA clock job)) i j Hij)
    as H.
  split; [exact H|].
  apply (minute_lt _ _ (Z.of_nat (j - i))); [lia|exact H].
Qed.

(** X14. A second poll at the same instant never fires and changes
    nothing; and once the job fired at [t], no reading up to a minute after
    [t] fires, readings of a clock that stepped back before [t] included. *)
Theorem no_second_fire_without_progress (job : RoutineJob) (t : Date) :
  shouldRun LocalTZA (snd (shouldRun LocalTZA job t)) t
  = (false, snd (shouldRun LocalTZA job t)) /\
  (forall t' : Date,
      fst (shouldRun LocalTZA job t) = true ->
      getTime t' - getTime t <= 60000 ->
      shouldRun LocalTZA (snd (shouldRun LocalTZA job t)) t'
      = (false, snd (shouldRun LocalTZA job t))).
Proof.
  assert (Hblocked : forall (j : RoutineJob) (last t' : Date),
             lastRun j = Some last -> getTime t' - getTime last <= 60000 ->
             shouldRun LocalTZA j t' = (false, j)).
  { intros j last t' Hl Hw. unfold shouldRun. rewrite Hl.
    destruct (Z.ltb_spec 60000 (getTime t' - getTime last)); [lia|reflexivity]. }
  destruct (shouldRun_cases LocalTZA job t) as [[_ [_ H]]|[Hno H]];
    rewrite H; simpl.
  - split.
    + apply (Hblocked _ t); [reflexivity|lia].
    + intros t' _ Hw. now apply (Hblocked _ t).
  - split; [exact H|]. discriminate.
Qed.

(** X16. Polling never alters the name or the five fields of the job. *)
Theorem poll_keeps_schedule (job : RoutineJob) (clock : list Date) :
  getName (snd (poll LocalTZA job clock)) = getName job /\
  minute (snd (poll LocalTZA job clock)) = minute job /\
  hour (snd (poll LocalTZA job clock)) = hour job /\
  day (snd (poll LocalTZA job clock)) = day job /\
  month (snd (poll LocalTZA job clock)) = month job /\
  weekday (snd (poll LocalTZA job clock)) = weekday job.
Proof.
  revert job. induction clock as [|now later IH]; intros job;
    [repeat split|].
  cbn [poll].
  pose proof (shouldRun_schedule LocalTZA job now) as Hs. cbv zeta in Hs.
  destruct (shouldRun LocalTZA job now) as [fire job'].
  specialize (IH job').
  destruct (poll LocalTZA job' later) as [fires job''].
  simpl in *. unfold getName in *.
  destruct IH as (-> & -> & -> & -> & -> & ->). exact Hs.
Qed.

(** Polls more than a minute apart are never blocked by the window. *)
Lemma slow_poll_decisions (clock : list Date) :
  StronglySorted (fun a b => a + 60000 < b) clock ->
  forall job : RoutineJob,
    (forall last, lastRun job = Some last ->
                  Forall (fun t => last + 60000 < t) clock) ->
    fst (poll LocalTZA job clock) = map (matchesSchedule LocalTZA job) clock.
Proof.
  induction 1 as [|now later Hs IH Hnow]; intros job Hlast; [reflexivity|].
  cbn [poll map].
  assert (Harmed : armed job now).
  { unfold armed. destruct (lastRun job) as [last|] eqn:E; [|exact I].
    specialize (Hlast last eq_refl). inversion Hlast; subst.
    unfold getTime. lia. }
  destruct (shouldRun_cases LocalTZA job now) as [[_ [Hm H]]|[[Hno|Hno] H]];
    rewrite H.
  - specialize (IH (set_lastRun job now)).
    destruct (poll LocalTZA (set_lastRun job now) later) as [fires job''].
    simpl in *. rewrite IH.
    + apply matchesSchedule_fieldsMatch in Hm. rewrite Hm. reflexivity.
    + intros last [= <-]. exact Hnow.
  - contradiction.
  - specialize (IH job).
    destruct (poll LocalTZA job later) as [fires job''].
    simpl in *. rewrite IH.
    + destruct (matchesSchedule LocalTZA job now) eqn:E; [|reflexivity].
      apply matchesSchedule_fieldsMatch in E. contradiction.
    + intros last Hl. specialize (Hlast last Hl). now inversion Hlast.
Qed.

(** X17. When every poll comes more than a minute after the one before,
    and after the last run, the window blocks nothing: the job fires at
    exactly the polls at which its schedule matches. *)
Theorem slow_polling_fires_on_every_match (job : RoutineJob)
    (clock : list Date) :
  StronglySorted (fun a b => a + 60000 < b) clock ->
  (forall last, lastRun job = Some last ->
                Forall (fun t => last + 60000 < t) clock) ->
  fst (poll LocalTZA job clock) = map (matchesSchedule LocalTZA job) clock.
Proof. intros Hs Hl. now apply slow_poll_decisions. Qed.

(** Polled every 60000 milliseconds at instants that all match, the job
    fires at every other poll: the poll one cadence step after a fire is
    still inside the window. *)
Lemma minute_cadence_decisions (n : nat) :
  forall (job : RoutineJob) (t : Date),
    (forall k, (k < n)%nat ->
               fieldsMatch LocalTZA job (t + 60000 * Z.of_nat k)) ->
    (armed job t ->
     fst (poll LocalTZA job (cadence t 60000 n)) = map Nat.even (seq 0 n)) /\
    (lastRun job = Some (t - 60000) ->
     fst (poll LocalTZA job (cadence t 60000 n)) = map Nat.odd (seq 0 n)).
Proof.
  induction n as [|n IH]; intros job t Hall; [split; reflexivity|].
  assert (Hshift : cadence t 60000 (S n) = t :: cadence (t + 60000) 60000 n).
  { unfold cadence. cbn [seq map].
    replace (t + 60000 * Z.of_nat 0) with t by lia.
    rewrite <- seq_shift, map_map. apply f_equal, map_ext. intros k. lia. }
  assert (Hnext : forall k, (k < n)%nat ->
             fieldsMatch LocalTZA job (t + 60000 + 60000 * Z.of_nat k)).
  { intros k Hk. specialize (Hall (S k) ltac:(lia)).
    replace (t + 60000 + 60000 * Z.of_nat k)
      with (t + 60000 * Z.of_nat (S k)) by lia. exact Hall. }
  assert (Hhere : fieldsMatch LocalTZA job t).
  { specialize (Hall 0%nat ltac:(lia)).
    replace (t + 60000 * Z.of_nat 0) with t in Hall by lia. exact Hall. }
  rewrite Hshift. cbn [poll seq map]. split.
  - intros Ha. rewrite (shouldRun_fires LocalTZA job t Ha Hhere).
    destruct (IH (set_lastRun job t) (t + 60000) Hnext) as [_ Hodd].
    specialize (Hodd ltac:(simpl; f_equal; lia)).
    destruct (poll LocalTZA (set_lastRun job t) (cadence (t + 60000) 60000 n))
      as [fires job''].
    simpl in *. rewrite Hodd. f_equal.
    rewrite <- seq_shift, map_map. apply map_ext. intros k.
    now rewrite Nat.even_succ.
  - intros Hl.
    assert (Hblocked : shouldRun LocalTZA job t = (false, job)).
    { unfold shouldRun. rewrite Hl. unfold getTime.
      destruct (Z.ltb_spec 60000 (t - (t - 60000))); [lia|reflexivity]. }
    rewrite Hblocked.
    destruct (IH job (t + 60000) Hnext) as [Heven _].
    specialize (Heven ltac:(unfold armed; rewrite Hl; unfold getTime; lia)).
    destruct (poll LocalTZA job (cadence (t + 60000) 60000 n))
      as [fires job''].
    simpl in *. rewrite Heven. f_equal.
    rewrite <- seq_shift, map_map. apply map_ext. intros k.
    now rewrite Nat.odd_succ.
Qed.

(** X15. A job that never ran, polled every 60000 milliseconds at instants
    that all match its schedule, fires at the first poll and then at every
    other poll only: a poll exactly one minute after a fire is still
    blocked. *)
Theorem minute_cadence_fires_every_other_poll (job : RoutineJob) (t0 : Date)
    (n : nat) :
  lastRun job = None ->
  (forall k, (k < n)%nat ->
             fieldsMatch LocalTZA job (t0 + 60000 * Z.of_nat k)) ->
  fst (poll LocalTZA job (cadence t0 60000 n)) = map Nat.even (seq 0 n).
Proof.
  intros Hl Hall.
  apply (proj1 (minute_cadence_decisions n job t0 Hall)).
  unfold armed. now rewrite Hl.
Qed.

Lemma local_minute_components (t t' : Z) :
  t / 60000 = t' / 60000 ->
  Calendar.MinFromTime t = Calendar.MinFromTime t' /\
  Calendar.HourFromTime t = Calendar.HourFromTime t' /\
  Calendar.Day t = Calendar.Day t'.
Proof.
  intros H. unfold Calendar.MinFromTime, Calendar.HourFromTime, Calendar.Day,
    Calendar.msPerMinute, Calendar.msPerHour, Calendar.msPerDay.
  change 3600000 with (60000 * 60). change 86400000 with (60000 * 1440).
  rewrite <- !Z.div_div by lia. now rewrite H.
Qed.

Lemma same_day_components (t t' : Z) :
  Calendar.Day t = Calendar.Day t' ->
  Calendar.DateFromTime t = Calendar.DateFromTime t' /\
  Calendar.MonthFromTime t = Calendar.MonthFromTime t' /\
  Calendar.WeekDay t = Calendar.WeekDay t'.
Proof.
  intros H.
  unfold Calendar.DateFromTime, Calendar.MonthFromTime, Calendar.WeekDay,
    Calendar.InLeapYear, Calendar.DayWithinYear, Calendar.YearFromTime.
  now rewrite H.
Qed.

(** X18. The schedule looks at the local minute only: two instants in the
    same minute of local time are matched alike, whatever their seconds and
    milliseconds. *)
Theorem same_local_minute_same_decision (job : RoutineJob) (t t' : Date) :
  LocalTime LocalTZA t / 60000 = LocalTime LocalTZA t' / 60000 ->
  matchesSchedule LocalTZA job t = matchesSchedule LocalTZA job t'.
Proof.
  intros H. rewrite !matchesSchedule_andb.
  unfold getMinutes, getHours, getDate, getMonth, getDay.
  destruct (local_minute_components _ _ H) as (-> & -> & Hday).
  destruct (same_day_components _ _ Hday) as (-> & -> & ->).
  reflexivity.
Qed.

(** X19. The window is measured on the clock, the schedule on local time:
    when local time repeats more than a minute later, as at the end of
    daylight saving time, a job that fires at the first instant fires again
    at the second. *)
Theorem repeated_local_time_fires_again (job : RoutineJob) (t t' : Date) :
  LocalTime LocalTZA t' = LocalTime LocalTZA t ->
  60000 < getTime t' - getTime t ->
  armed job t -> fieldsMatch LocalTZA job t ->
  fst (poll LocalTZA job [t; t']) = [true; true].
Proof.
  intros Hlocal Hlate Ha Hm. cbn [poll].
  rewrite (shouldRun_fires LocalTZA job t Ha Hm).
  rewrite (shouldRun_fires LocalTZA (set_lastRun job t) t'); [reflexivity| |].
  - exact Hlate.
  - apply matchesSchedule_fieldsMatch.
    apply matchesSchedule_fieldsMatch in Hm.
    rewrite <- Hm. apply (same_local_minute_same_decision job t' t).
    now rewrite Hlocal.
Qed.

End Polling.

(** ** Instances of the polling properties *)

Lemma no_second_fire_without_progress_witness :
  shouldRun UTC (snd (shouldRun UTC weeklyJob monday_9am)) (monday_9am - 5000)
  = (false, snd (shouldRun UTC weeklyJob monday_9am)).
Proof.
  apply (proj2 (no_second_fire_without_progress UTC weeklyJob monday_9am)).
  - vm_compute. reflexivity.
  - vm_compute. discriminate.
Defined.

Lemma dead_field_never_fires_witness :
  firings UTC
    {| name := "padded"; lastRun := None; minute := ""; hour := "0";
       day := "9"; month := "*"; weekday := "*" |}
    [monday_9am; monday_9am + 604800000] = [].
Proof.
  apply (dead_field_never_fires UTC
           {| name := "padded"; lastRun := None; minute := ""; hour := "0";
              day := "9"; month := "*"; weekday := "*" |}
           [monday_9am; monday_9am + 604800000]).
  left. intros v. reflexivity.
Defined.

Lemma out_of_range_numeral_never_fires_witness :
  firings UTC
    {| name := "sunday"; lastRun := None; minute := "0"; hour := "9";
       day := "*"; month := "*"; weekday := "7" |}
    [monday_9am - 86400000; monday_9am] = [].
Proof.
  apply (out_of_range_numeral_never_fires UTC
           {| name := "sunday"; lastRun := None; minute := "0"; hour := "9";
              day := "*"; month := "*"; weekday := "7" |}
           7 [monday_9am - 86400000; monday_9am]).
  - unfold maxSafe. lia.
  - right. right. right. right. split; [reflexivity|lia].
Defined.

Lemma fires_only_on_schedule_witness :
  In monday_9am [monday_9am - 60000; monday_9am; monday_9am + 60000] /\
  fieldsMatch UTC weeklyJob monday_9am.
Proof.
  apply (fires_only_on_schedule UTC weeklyJob
           [monday_9am - 60000; monday_9am; monday_9am + 60000] monday_9am).
  vm_compute. left. reflexivity.
Defined.

Lemma firings_more_than_a_minute_apart_witness :
  nth 0 (firings UTC everyMinuteJob (cadence 0 20000 10)) 0
  + 60000 * Z.of_nat (2 - 0)
  < nth 2 (firings UTC everyMinuteJob (cadence 0 20000 10)) 0.
Proof.
  apply (proj1 (firings_more_than_a_minute_apart UTC everyMinuteJob
                  (cadence 0 20000 10) 0 2 ltac:(vm_compute; lia))).
Defined.

Lemma slow_polling_fires_on_every_match_witness :
  fst (poll UTC weeklyJob [monday_9am; monday_9am + 604800000])
  = map (matchesSchedule UTC weeklyJob) [monday_9am; monday_9am + 604800000].
Proof.
  apply (slow_polling_fires_on_every_match UTC weeklyJob
           [monday_9am; monday_9am + 604800000]).
  - repeat constructor.
  - intros last [=].
Defined.

Lemma minute_cadence_fires_every_other_poll_witness :
  fst (poll UTC everyMinuteJob (cadence monday_9am 60000 6))
  = map Nat.even (seq 0 6).
Proof.
  apply (minute_cadence_fires_every_other_poll UTC everyMinuteJob
           monday_9am 6).
  - reflexivity.
  - intros k _. repeat split.
Defined.

Lemma same_local_minute_same_decision_witness :
  matchesSchedule UTC weeklyJob monday_9am
  = matchesSchedule UTC weeklyJob (monday_9am + 59999).
Proof.
  apply (same_local_minute_same_decision UTC weeklyJob monday_9am
           (monday_9am + 59999)).
  vm_compute. reflexivity.
Defined.

Lemma repeated_local_time_fires_again_witness :
  fst (poll Eastern_2024_11_03 nightlyJob [1730611800000; 1730615400000])
  = [true; true].
Proof.
  apply (repeated_local_time_fires_again Eastern_2024_11_03 nightlyJob
           1730611800000 1730615400000).
  - vm_compute. reflexivity.
  - vm_compute. reflexivity.
  - exact I.
  - repeat split; vm_compute; reflexivity.
Defined.
